(** * deep-transcribe: option model and pipeline orchestrator

    A shallow embedding of [deep_transcribe/transcribe_options.py] (the
    [TranscribeOptions] dataclass, its presets, [from_with_flags],
    [merge_with] and the self-test) and of [transcribe_with_options],
    the four commands and [format_results] from
    [deep_transcribe/cli_commands.py], followed by the properties the
    specification states about them and further properties of the
    code. *)

From Stdlib Require Import List String Ascii NArith Bool Arith Lia.
Import ListNotations.

Set Implicit Arguments.

(** ** Python strings

    A Python [str] is a sequence of Unicode code points.  A code point is
    an [N]; literals of the source are all ASCII and are written with
    [lit]. *)

Module PyStr.

Definition char := N.
Definition str := list char.

Definition lit (s : string) : str :=
  List.map N_of_ascii (list_ascii_of_string s).

Definition comma : char := 44%N.

(** [str.isspace] on one code point: the code points CPython classifies
    as whitespace, which are the ones [str.strip()] removes. *)
Definition isspace (c : char) : bool :=
  ((9 <=? c) && (c <=? 13) || (28 <=? c) && (c <=? 32)
   || (c =? 133) || (c =? 160) || (c =? 5760)
   || (8192 <=? c) && (c <=? 8202)
   || (c =? 8232) || (c =? 8233) || (c =? 8239) || (c =? 8287)
   || (c =? 12288))%N.

Fixpoint eqb (a b : str) : bool :=
  match a, b with
  | [], [] => true
  | x :: a', y :: b' => N.eqb x y && eqb a' b'
  | _, _ => false
  end.

(** [name in names] *)
Definition mem (name : str) (names : list str) : bool :=
  existsb (eqb name) names.

(** Truth value of a string: [not s] holds exactly for the empty one. *)
Definition is_empty (s : str) : bool :=
  match s with [] => true | _ :: _ => false end.

Fixpoint lstrip (s : str) : str :=
  match s with
  | [] => []
  | c :: s' => if isspace c then lstrip s' else s
  end.

Definition rstrip (s : str) : str := rev (lstrip (rev s)).

(** [s.strip()] *)
Definition strip (s : str) : str := rstrip (lstrip s).

(** [s.split(sep)] for a separator of one character: one piece more than
    there are separators, empty pieces kept; [[""]] for the empty string. *)
Fixpoint split (sep : char) (s : str) : list str :=
  match s with
  | [] => [[]]
  | c :: s' =>
      if N.eqb c sep then [] :: split sep s'
      else match split sep s' with
           | [] => [[c]]
           | piece :: pieces => (c :: piece) :: pieces
           end
  end.

(** [sep.join(pieces)] *)
Fixpoint join (sep : str) (pieces : list str) : str :=
  match pieces with
  | [] => []
  | [p] => p
  | p :: ps => p ++ sep ++ join sep ps
  end.

(** [s.startswith(prefix)] *)
Fixpoint startswith (s prefix : str) : bool :=
  match prefix, s with
  | [], _ => true
  | p :: prefix', c :: s' => N.eqb c p && startswith s' prefix'
  | _ :: _, [] => false
  end.

End PyStr.

Import PyStr.

(** ** Exceptions and results of fallible calls *)

Inductive exn : Type :=
| ValueError (msg : str)
    (** raised by [from_with_flags] itself *)
| SetattrError (name : str)
    (** raised by the interpreter when [setattr] hits a slot that does
        not take the value *)
| TypeError (msg : str)
    (** raised by the interpreter when a [bool] is iterated or called *).

Inductive outcome (A : Type) : Type :=
| Returns (a : A)
| Raises (e : exn).

Arguments Returns {A} a.
Arguments Raises {A} e.

(** What the interpreter and the [dataclass] decorator put on every
    instance besides what the class body declares ([__class__],
    [__init__], [__eq__], [__dataclass_fields__], ...).  The set depends
    on the interpreter, so the model takes it as a parameter. *)
Inductive slot : Type :=
| Absent      (** no such inherited attribute *)
| Writable    (** inherited, and assignable on the instance *)
| ReadOnly    (** inherited, and assignment raises *).

Definition inherited_attrs := str -> slot.

(** ** The option model: [transcribe_options.py] *)

Module TranscribeOptions.

(** The dataclass.  [instance_attrs] holds what [setattr] stored on the
    instance under a name that is not a field; a freshly constructed
    instance has none. *)
Record t : Type := mk {
  identify_speakers : bool;
  format : bool;
  insert_section_headings : bool;
  research_paras : bool;
  add_summary_bullets : bool;
  add_description : bool;
  insert_frame_captures : bool;
  instance_attrs : list (str * bool)
}.

(** [cls()]: every field at its default. *)
Definition cls : t :=
  mk false false false false false false false [].

Definition basic : t := cls.

Definition formatted : t :=
  mk true true false false false false false [].

Definition annotated : t :=
  mk true true true false true true true [].

Definition deep : t :=
  mk true true true true true true true [].

(** [__dataclass_fields__], in declaration order. *)
Definition dataclass_fields : list str :=
  [ lit "identify_speakers"; lit "format"; lit "insert_section_headings";
    lit "research_paras"; lit "add_summary_bullets"; lit "add_description";
    lit "insert_frame_captures" ].

(** The methods the class body defines. *)
Definition class_methods : list str :=
  [ lit "basic"; lit "formatted"; lit "annotated"; lit "deep";
    lit "from_with_flags"; lit "merge_with" ].

(** What the class carries besides the fields and what is inherited:
    its methods, and the [__dataclass_fields__] the decorator puts on it
    and [from_with_flags] reads. *)
Definition class_attrs : list str :=
  class_methods ++ [lit "__dataclass_fields__"].

(** The generated [__eq__]: both are instances of the class, so the
    tuples of fields are compared; attributes outside the fields do not
    take part. *)
Definition __eq__ (a b : t) : bool :=
  Bool.eqb a.(identify_speakers) b.(identify_speakers)
  && Bool.eqb a.(format) b.(format)
  && Bool.eqb a.(insert_section_headings) b.(insert_section_headings)
  && Bool.eqb a.(research_paras) b.(research_paras)
  && Bool.eqb a.(add_summary_bullets) b.(add_summary_bullets)
  && Bool.eqb a.(add_description) b.(add_description)
  && Bool.eqb a.(insert_frame_captures) b.(insert_frame_captures).

(** Storing into the instance dictionary: an existing key keeps its
    place, a new one goes last. *)
Fixpoint store (name : str) (value : bool) (d : list (str * bool))
  : list (str * bool) :=
  match d with
  | [] => [(name, value)]
  | (k, v) :: d' =>
      if PyStr.eqb k name then (k, value) :: d'
      else (k, v) :: store name value d'
  end.

Section ObjectModel.

Variable inherited : inherited_attrs.

(** [hasattr(options, name)]: the instance dictionary (fields and what
    was stored since), then the class body, then what is inherited. *)
Definition hasattr (options : t) (name : str) : bool :=
  mem name dataclass_fields
  || mem name (List.map fst options.(instance_attrs))
  || mem name class_attrs
  || match inherited name with Absent => false | _ => true end.

(** [setattr(options, name, value)].  The dataclass is not frozen: a
    field is overwritten, the name of a class attribute or a fresh name
    lands in the instance dictionary (where it hides the class
    attribute), and an inherited slot that does not take the value
    raises. *)
Definition setattr (options : t) (name : str) (value : bool) : outcome t :=
  let 'mk a b c d e f g x := options in
  if PyStr.eqb name (lit "identify_speakers") then Returns (mk value b c d e f g x)
  else if PyStr.eqb name (lit "format") then Returns (mk a value c d e f g x)
  else if PyStr.eqb name (lit "insert_section_headings") then Returns (mk a b value d e f g x)
  else if PyStr.eqb name (lit "research_paras") then Returns (mk a b c value e f g x)
  else if PyStr.eqb name (lit "add_summary_bullets") then Returns (mk a b c d value f g x)
  else if PyStr.eqb name (lit "add_description") then Returns (mk a b c d e value g x)
  else if PyStr.eqb name (lit "insert_frame_captures") then Returns (mk a b c d e f value x)
  else if mem name class_attrs then Returns (mk a b c d e f g (store name value x))
  else match inherited name with
       | ReadOnly => Raises (SetattrError name)
       | _ => Returns (mk a b c d e f g (store name value x))
       end.

(** The list the error message shows, read off
    [options.__dataclass_fields__].  The attribute is looked up on the
    instance first: once [setattr] has stored a [bool] under that name
    the comprehension iterates the [bool], which raises. *)
Definition valid_options (options : t) : outcome (list str) :=
  if mem (lit "__dataclass_fields__")
       (List.map fst options.(instance_attrs))
  then Raises (TypeError (lit "'bool' object is not iterable"))
  else Returns
         (filter (fun field => negb (startswith field (lit "_")))
            dataclass_fields).

(** What the [else] branch of the loop raises. *)
Definition unknown_option (options : t) (flag_name : str) : exn :=
  match valid_options options with
  | Returns names =>
      ValueError (lit "Unknown option '" ++ flag_name
                  ++ lit "'. Valid options: " ++ join (lit ", ") names)
  | Raises e => e
  end.

(** The [for flag_name in flag_names] loop of [from_with_flags], on the
    instance [options] it mutates. *)
Fixpoint set_flags (options : t) (flag_names : list str) : outcome t :=
  match flag_names with
  | [] => Returns options
  | flag_name :: rest =>
      if is_empty flag_name then set_flags options rest
      else if hasattr options flag_name then
        match setattr options flag_name true with
        | Returns options' => set_flags options' rest
        | Raises e => Raises e
        end
      else Raises (unknown_option options flag_name)
  end.

Definition from_with_flags (with_flags : str) : outcome t :=
  let options := cls in
  if is_empty (strip with_flags) then Returns options
  else
    let flag_names := List.map strip (split comma with_flags) in
    set_flags options flag_names.

End ObjectModel.

(** The function [merge_with] of the class body, as
    [TranscribeOptions.merge_with(self, other)] runs it: a new instance,
    field by field. *)
Definition merge_with (self other : t) : t :=
  mk (self.(identify_speakers) || other.(identify_speakers))
     (self.(format) || other.(format))
     (self.(insert_section_headings) || other.(insert_section_headings))
     (self.(research_paras) || other.(research_paras))
     (self.(add_summary_bullets) || other.(add_summary_bullets))
     (self.(add_description) || other.(add_description))
     (self.(insert_frame_captures) || other.(insert_frame_captures))
     [].

(** [self.merge_with(other)], the call on the instance: the attribute is
    looked up on the instance first, and a [bool] that [setattr] stored
    under the name hides the method and cannot be called. *)
Definition call_merge_with (self other : t) : outcome t :=
  if mem (lit "merge_with") (List.map fst self.(instance_attrs))
  then Raises (TypeError (lit "'bool' object is not callable"))
  else Returns (merge_with self other).

End TranscribeOptions.

(** ** The collaborators

    Every processing step is an action of the kash library: it takes an
    item and returns an item, or fails.  [transcribe] also takes the
    language code. *)

Module Kash.

Inductive action : Type :=
| transcribe (language : str)
| identify_speakers
| strip_html
| break_into_paragraphs
| backfill_timestamps
| insert_section_headings
| research_paras
| add_summary_bullets
| add_description
| insert_frame_captures.


(** The steps bundled under the [format] flag. *)
Definition is_formatting (a : action) : bool :=
  match a with
  | identify_speakers | strip_html | break_into_paragraphs
  | backfill_timestamps => true
  | _ => false
  end.


End Kash.

(** ** The orchestrator: [transcribe_with_options] in [cli_commands.py] *)

Module Pipeline.

Section Collaborators.

(** The items, whatever the collaborators act on, and what they raise. *)
Variables Item World Failure : Type.

(** What calling an action on an item does. *)
Variable perform :
  Kash.action -> Item -> World -> (Failure + Item) * World.

(** One call of a collaborator, as the orchestrator made it. *)
Record call : Type := mkcall {
  callee : Kash.action;
  argument : Item;
  result : Failure + Item
}.

Record state : Type := mkstate {
  world : World;
  calls : list call   (** the calls made so far, oldest first *)
}.

Definition start (w : World) : state := mkstate w [].

(** Computations that call collaborators: an exception ends them. *)
Definition run (A : Type) : Type := state -> (Failure + A) * state.

Definition ret {A} (a : A) : run A := fun st => (inr a, st).

Definition bind {A B} (m : run A) (k : A -> run B) : run B :=
  fun st =>
    match m st with
    | (inr a, st') => k a st'
    | (inl e, st') => (inl e, st')
    end.

Definition invoke (a : Kash.action) (item : Item) : run Item :=
  fun st =>
    let (r, w) := perform a item st.(world) in
    (r, mkstate w (st.(calls) ++ [mkcall a item r])).

Notation "x <- m ;; k" := (bind m (fun x => k))
  (at level 61, m at next level, right associativity).

Definition transcribe_with_options
    (item : Item) (options : TranscribeOptions.t) (language : str)
  : run Item :=
  result <- invoke (Kash.transcribe language) item ;;
  result <-
    (if options.(TranscribeOptions.format) then
       result <-
         (if options.(TranscribeOptions.identify_speakers)
          then invoke Kash.identify_speakers result
          else ret result) ;;
       result <- invoke Kash.strip_html result ;;
       result <- invoke Kash.break_into_paragraphs result ;;
       invoke Kash.backfill_timestamps result
     else ret result) ;;
  result <-
    (if options.(TranscribeOptions.insert_section_headings)
     then invoke Kash.insert_section_headings result else ret result) ;;
  result <-
    (if options.(TranscribeOptions.research_paras)
     then invoke Kash.research_paras result else ret result) ;;
  result <-
    (if options.(TranscribeOptions.add_summary_bullets)
     then invoke Kash.add_summary_bullets result else ret result) ;;
  result <-
    (if options.(TranscribeOptions.add_description)
     then invoke Kash.add_description result else ret result) ;;
  result <-
    (if options.(TranscribeOptions.insert_frame_captures)
     then invoke Kash.insert_frame_captures result else ret result) ;;
  ret result.

(** *** The specification's reading of the orchestrator *)

(** The numbered list of section 4.2: the steps a configuration enables,
    in the fixed order. *)
Definition spec_steps (options : TranscribeOptions.t) (language : str)
  : list Kash.action :=
  [Kash.transcribe language]
  ++ (if options.(TranscribeOptions.format)
      then if options.(TranscribeOptions.identify_speakers)
           then [Kash.identify_speakers] else []
      else [])
  ++ (if options.(TranscribeOptions.format)
      then [Kash.strip_html; Kash.break_into_paragraphs;
            Kash.backfill_timestamps]
      else [])
  ++ (if options.(TranscribeOptions.insert_section_headings)
      then [Kash.insert_section_headings] else [])
  ++ (if options.(TranscribeOptions.research_paras)
      then [Kash.research_paras] else [])
  ++ (if options.(TranscribeOptions.add_summary_bullets)
      then [Kash.add_summary_bullets] else [])
  ++ (if options.(TranscribeOptions.add_description)
      then [Kash.add_description] else [])
  ++ (if options.(TranscribeOptions.insert_frame_captures)
      then [Kash.insert_frame_captures] else []).

(** The same list read as section 9 suggests: the ten steps in their
    one order, each with the condition under which it runs. *)
Definition fixed_order (language : str) : list Kash.action :=
  [ Kash.transcribe language; Kash.identify_speakers; Kash.strip_html;
    Kash.break_into_paragraphs; Kash.backfill_timestamps;
    Kash.insert_section_headings; Kash.research_paras;
    Kash.add_summary_bullets; Kash.add_description;
    Kash.insert_frame_captures ].

Definition enabled (options : TranscribeOptions.t) (a : Kash.action) : bool :=
  match a with
  | Kash.transcribe _ => true
  | Kash.identify_speakers =>
      options.(TranscribeOptions.format)
      && options.(TranscribeOptions.identify_speakers)
  | Kash.strip_html | Kash.break_into_paragraphs | Kash.backfill_timestamps =>
      options.(TranscribeOptions.format)
  | Kash.insert_section_headings =>
      options.(TranscribeOptions.insert_section_headings)
  | Kash.research_paras => options.(TranscribeOptions.research_paras)
  | Kash.add_summary_bullets => options.(TranscribeOptions.add_summary_bullets)
  | Kash.add_description => options.(TranscribeOptions.add_description)
  | Kash.insert_frame_captures =>
      options.(TranscribeOptions.insert_frame_captures)
  end.

(** A list of steps run one after the other, each on the item the one
    before returned, up to the first that fails. *)
Fixpoint run_steps (steps : list Kash.action) (item : Item) : run Item :=
  match steps with
  | [] => ret item
  | a :: steps' => result <- invoke a item ;; run_steps steps' result
  end.

(** [chain item w cs r w']: from [item] in world [w], [cs] is a sequence
    of calls really made, each on what the one before returned and in
    the world it left, none made after a failure; [r] is what the last
    one gave ([item] itself when there is none) and [w'] the world it
    left. *)
Inductive chain : Item -> World -> list call -> Failure + Item -> World -> Prop :=
| chain_end : forall item w, chain item w [] (inr item) w
| chain_step : forall a item w out w1 cs r w',
    perform a item w = (inr out, w1) ->
    chain out w1 cs r w' ->
    chain item w (mkcall a item (inr out) :: cs) r w'
| chain_fail : forall a item w e w1,
    perform a item w = (inl e, w1) ->
    chain item w [mkcall a item (inl e)] (inl e) w1.

Definition succeeded (c : call) : bool :=
  match c.(result) with inr _ => true | inl _ => false end.

End Collaborators.

Arguments start {Item World Failure} w.

End Pipeline.

(** A stand-in collaborator for concrete runs: an item is the list of
    the actions applied to it, the world counts the calls, and the
    actions picked out by [fails] raise their own name. *)
Definition stub (fails : Kash.action -> bool)
    (a : Kash.action) (item : list Kash.action) (w : nat)
  : (Kash.action + list Kash.action) * nat :=
  if fails a then (inl a, S w) else (inr (item ++ [a]), S w).

Definition never : Kash.action -> bool := fun _ => false.

Definition research_fails (a : Kash.action) : bool :=
  match a with Kash.research_paras => true | _ => false end.

(** An interpreter that inherits nothing and one with the usual
    [__class__] (not assignable to a bool) and [__doc__]. *)
Definition no_inherited : inherited_attrs := fun _ => Absent.

Definition some_inherited : inherited_attrs :=
  fun name =>
    if PyStr.eqb name (lit "__class__") then ReadOnly
    else if PyStr.eqb name (lit "__doc__") then Writable
    else Absent.

(** ** The four commands: [transcribe_basic] ... [transcribe_deep]

    The bodies of the four actions of [cli_commands.py]: each hands its
    item and language to [transcribe_with_options] with one preset.  The
    [kash_action] decorator that registers them belongs to kash and is
    not part of the model. *)

Module Commands.

Section Collaborators.

Variables Item World Failure : Type.
Variable perform :
  Kash.action -> Item -> World -> (Failure + Item) * World.

Definition transcribe_basic (item : Item) (language : str)
  : Pipeline.run Item World Failure Item :=
  Pipeline.transcribe_with_options perform item
    TranscribeOptions.basic language.

Definition transcribe_formatted (item : Item) (language : str)
  : Pipeline.run Item World Failure Item :=
  Pipeline.transcribe_with_options perform item
    TranscribeOptions.formatted language.

Definition transcribe_annotated (item : Item) (language : str)
  : Pipeline.run Item World Failure Item :=
  Pipeline.transcribe_with_options perform item
    TranscribeOptions.annotated language.

Definition transcribe_deep (item : Item) (language : str)
  : Pipeline.run Item World Failure Item :=
  Pipeline.transcribe_with_options perform item
    TranscribeOptions.deep language.

End Collaborators.

End Commands.

(** ** Rendering: [format_results] in [cli_commands.py] *)

Module Results.

Section Rendering.

(** Items, the world the collaborators act on, what they raise, and
    [pathlib.Path]. *)
Variables Item World Failure Path : Type.

(** [item.store_path]: a string, or [None]. *)
Variable store_path : Item -> option str.

(** [base_dir / Path(p)] *)
Variable under : Path -> str -> Path.

(** The three kash actions; an [ActionInput] and an [ActionResult] are
    taken for their [items]. *)
Variable tabbed_webpage_config :
  list Item -> World -> (Failure + list Item) * World.
Variable tabbed_webpage_generate :
  list Item -> World -> (Failure + list Item) * World.
Variable minify_html : Item -> World -> (Failure + Item) * World.

Inductive error : Type :=
| Raised (e : Failure)   (** what a collaborator raised *)
| IndexError             (** [items[0]] on an empty list *)
| AssertionError         (** an [assert] on a falsy value *)
| TypeError              (** [Path(None)] *).

Inductive rendering_call : Type :=
| config_call (items : list Item)
| generate_call (items : list Item)
| minify_call (item : Item).


Record state : Type := mkstate {
  world : World;
  calls : list rendering_call   (** oldest first *)
}.

Definition start (w : World) : state := mkstate w [].

Definition run (A : Type) : Type := state -> (error + A) * state.

Definition ret {A} (a : A) : run A := fun st => (inr a, st).

Definition raise {A} (e : error) : run A := fun st => (inl e, st).

Definition bind {A B} (m : run A) (k : A -> run B) : run B :=
  fun st =>
    match m st with
    | (inr a, st') => k a st'
    | (inl e, st') => (inl e, st')
    end.

Definition lift {A} (c : rendering_call)
    (f : World -> (Failure + A) * World) : run A :=
  fun st =>
    let (r, w) := f st.(world) in
    (match r with inl e => inl (Raised e) | inr a => inr a end,
     mkstate w (st.(calls) ++ [c])).

(** [items[0]] *)
Definition first_item (items : list Item) : run Item :=
  match items with
  | [] => raise IndexError
  | item :: _ => ret item
  end.

(** Truth value of a [store_path]: [None] and the empty string are
    falsy. *)
Definition truthy (p : option str) : bool :=
  match p with Some (_ :: _) => true | _ => false end.

(** [assert b], as the interpreter runs it without [-O] *)
Definition assert (b : bool) : run unit :=
  if b then ret tt else raise AssertionError.

(** [Path(p)] *)
Definition path (p : option str) : run str :=
  match p with Some s => ret s | None => raise TypeError end.

Notation "x <- m ;; k" := (bind m (fun x => k))
  (at level 61, m at next level, right associativity).

Definition format_results
    (result_item : Item) (base_dir : Path) (no_minify : bool)
  : run (Path * Path) :=
  config <- lift (config_call [result_item])
              (tabbed_webpage_config [result_item]) ;;
  html_result <- lift (generate_call config)
                   (tabbed_webpage_generate config) ;;
  minified_result <-
    (if negb no_minify then
       item <- first_item html_result ;;
       lift (minify_call item) (minify_html item)
     else first_item html_result) ;;
  _ <- assert (truthy (store_path result_item)) ;;
  _ <- assert (truthy (store_path minified_result)) ;;
  md <- path (store_path result_item) ;;
  html <- path (store_path minified_result) ;;
  let md_path := under base_dir md in
  let html_path := under base_dir html in
  ret (md_path, html_path).

End Rendering.

Arguments start {Item World} w.
Arguments IndexError {Failure}.
Arguments AssertionError {Failure}.
Arguments TypeError {Failure}.

End Results.

(** ** The self-test of [transcribe_options.py] *)

(** How a run of the test ends: it gets to its last line, an [assert]
    fails (the line it stands on), or a call raises. *)
Inductive verdict : Type :=
| Passed
| AssertionFails (line : nat)
| Escapes (e : exn).

Definition check (line : nat) (b : bool) (k : verdict) : verdict :=
  if b then k else AssertionFails line.

Definition parsed (r : outcome TranscribeOptions.t)
    (k : TranscribeOptions.t -> verdict) : verdict :=
  match r with Returns options => k options | Raises e => Escapes e end.

Definition test_transcribe_options_parsing (inherited : inherited_attrs)
  : verdict :=
  parsed (TranscribeOptions.from_with_flags inherited
            (lit "format,insert_section_headings")) (fun options =>
  check 126 options.(TranscribeOptions.format) (
  check 127 options.(TranscribeOptions.insert_section_headings) (
  check 128 (negb options.(TranscribeOptions.research_paras)) (
  parsed (TranscribeOptions.from_with_flags inherited (lit "")) (fun options =>
  check 132 (negb options.(TranscribeOptions.format)) (
  parsed (TranscribeOptions.from_with_flags inherited
            (lit " format , insert_section_headings ")) (fun options =>
  check 136 options.(TranscribeOptions.format) (
  check 137 options.(TranscribeOptions.insert_section_headings) (
  let basic := TranscribeOptions.basic in
  check 141 (negb basic.(TranscribeOptions.format)) (
  let formatted := TranscribeOptions.formatted in
  check 144 formatted.(TranscribeOptions.format) (
  check 145 formatted.(TranscribeOptions.identify_speakers) (
  let annotated := TranscribeOptions.annotated in
  check 148 annotated.(TranscribeOptions.format) (
  check 149 annotated.(TranscribeOptions.identify_speakers) (
  check 150 annotated.(TranscribeOptions.insert_section_headings) (
  check 151 (negb annotated.(TranscribeOptions.research_paras)) (
  check 152 annotated.(TranscribeOptions.add_summary_bullets) (
  let deep := TranscribeOptions.deep in
  check 155 deep.(TranscribeOptions.format) (
  check 156 deep.(TranscribeOptions.identify_speakers) (
  check 157 deep.(TranscribeOptions.insert_section_headings) (
  check 158 deep.(TranscribeOptions.research_paras) (
  check 159 deep.(TranscribeOptions.add_summary_bullets) (
  let merged := TranscribeOptions.merge_with basic formatted in
  check 163 merged.(TranscribeOptions.format) (
  check 164 merged.(TranscribeOptions.identify_speakers)
  Passed))))))))))))))))))))))).

(** Stand-ins for concrete renderings: an item is its [store_path], the
    configuration step adds a page item, the generator returns what it
    is given, and minifying appends [".min"]. *)
Definition page_config (items : list (option str)) (w : nat)
  : (unit + list (option str)) * nat :=
  (inr (Some (lit "page.html") :: items), S w).

Definition page_generate (items : list (option str)) (w : nat)
  : (unit + list (option str)) * nat :=
  (inr items, S w).

Definition page_minify (item : option str) (w : nat)
  : (unit + option str) * nat :=
  (inr (option_map (fun p => p ++ lit ".min") item), S w).

(** ** Vocabulary of the statements *)

(** A string of whitespace only (the empty one included). *)
Definition whitespace (s : str) : bool := forallb isspace s.

Definition comma_free (s : str) : bool :=
  forallb (fun c => negb (N.eqb c comma)) s.

(** A token that is not empty. *)
Definition visible (t : str) : bool := negb (is_empty t).

(** A token written with whitespace around it: left padding, the token,
    right padding. *)
Definition padded_token : Type := (str * str * str)%type.

Definition written (p : padded_token) : str :=
  let '(l, t, r) := p in l ++ t ++ r.

Definition bare (p : padded_token) : str :=
  let '(_, t, _) := p in t.

Definition well_padded (p : padded_token) : bool :=
  let '(l, t, r) := p in whitespace l && whitespace r && comma_free t.

(** The trimmed pieces of a flag string. *)
Definition tokens (with_flags : str) : list str :=
  List.map strip (split comma with_flags).

(** A token [from_with_flags] takes when it is the only one. *)
Definition accepted (inherited : inherited_attrs) (tok : str) : bool :=
  match TranscribeOptions.set_flags inherited TranscribeOptions.cls [tok] with
  | Returns _ => true
  | Raises _ => false
  end.

(** The names of the flags a configuration has set, in declaration
    order, with commas between them. *)
Definition flag_string (o : TranscribeOptions.t) : str :=
  join [comma]
    ((if o.(TranscribeOptions.identify_speakers)
      then [lit "identify_speakers"] else [])
     ++ (if o.(TranscribeOptions.format) then [lit "format"] else [])
     ++ (if o.(TranscribeOptions.insert_section_headings)
         then [lit "insert_section_headings"] else [])
     ++ (if o.(TranscribeOptions.research_paras)
         then [lit "research_paras"] else [])
     ++ (if o.(TranscribeOptions.add_summary_bullets)
         then [lit "add_summary_bullets"] else [])
     ++ (if o.(TranscribeOptions.add_description)
         then [lit "add_description"] else [])
     ++ (if o.(TranscribeOptions.insert_frame_captures)
         then [lit "insert_frame_captures"] else [])).

(** What the loop raises at a token that raises [e] when alone, once it
    has taken the tokens [pre]: the same, except that the [ValueError]
    cannot be built after [__dataclass_fields__] was stored on the
    instance. *)
Definition raised_after (pre : list str) (e : exn) : exn :=
  match e with
  | ValueError _ =>
      if mem (lit "__dataclass_fields__") pre
      then TypeError (lit "'bool' object is not iterable")
      else e
  | _ => e
  end.

(** Every name stored on the instance is one a fresh instance answers
    to. *)
Definition settled (inherited : inherited_attrs) (o : TranscribeOptions.t)
  : bool :=
  forallb (TranscribeOptions.hasattr inherited TranscribeOptions.cls)
    (List.map fst o.(TranscribeOptions.instance_attrs)).

(** * Properties *)

(** ** Strings *)

Lemma eqb_eq (a b : str) : PyStr.eqb a b = true <-> a = b.
Proof.
  revert b; induction a as [|x a IH]; intros [|y b]; simpl;
    try (split; [discriminate | discriminate]); try tauto.
  rewrite andb_true_iff, N.eqb_eq, IH.
  split; [intros [-> ->]; reflexivity | intros H; inversion H; auto].
Qed.

Lemma eqb_refl (a : str) : PyStr.eqb a a = true.
Proof. apply eqb_eq; reflexivity. Qed.

Lemma lstrip_nil_iff (s : str) : lstrip s = [] <-> whitespace s = true.
Proof.
  induction s as [|c s IH]; simpl; [tauto|].
  destruct (isspace c); simpl; [exact IH|].
  split; discriminate.
Qed.

Lemma lstrip_head (s : str) c t : lstrip s = c :: t -> isspace c = false.
Proof.
  induction s as [|d s IH]; simpl; [discriminate|].
  destruct (isspace d) eqn:E; [exact IH|].
  intros H; inversion H; subst; exact E.
Qed.

Lemma whitespace_app (a b : str) :
  whitespace (a ++ b) = whitespace a && whitespace b.
Proof. apply forallb_app. Qed.

Lemma whitespace_rev (s : str) : whitespace (rev s) = whitespace s.
Proof.
  induction s as [|c s IH]; simpl; [reflexivity|].
  rewrite whitespace_app, IH; simpl.
  rewrite andb_true_r; apply andb_comm.
Qed.

Lemma strip_nil_iff (s : str) : strip s = [] <-> whitespace s = true.
Proof.
  unfold strip, rstrip; split.
  - intros H.
    assert (H1 : lstrip (rev (lstrip s)) = []).
    { rewrite <- (rev_involutive (lstrip _)), H; reflexivity. }
    apply lstrip_nil_iff in H1; rewrite whitespace_rev in H1.
    destruct (lstrip s) as [|c t] eqn:E; [apply lstrip_nil_iff; exact E|].
    apply lstrip_head in E; simpl in H1; rewrite E in H1; discriminate.
  - intros H; apply lstrip_nil_iff in H; rewrite H; reflexivity.
Qed.

Lemma whitespace_comma_free (s : str) :
  whitespace s = true -> comma_free s = true.
Proof.
  induction s as [|c s IH]; simpl; [reflexivity|].
  rewrite !andb_true_iff; intros [Hc Hs]; split; [|auto].
  destruct (N.eqb_spec c comma) as [->|]; [discriminate Hc | reflexivity].
Qed.

Lemma split_not_nil sep (s : str) : split sep s <> [].
Proof.
  induction s as [|c s IH]; simpl; [discriminate|].
  destruct (N.eqb c sep); [discriminate|].
  destruct (split sep s); discriminate.
Qed.

Lemma split_comma_free (s : str) :
  comma_free s = true -> split comma s = [s].
Proof.
  induction s as [|c s IH]; simpl; [reflexivity|].
  rewrite andb_true_iff; intros [Hc Hs].
  destruct (N.eqb c comma); [discriminate Hc|].
  rewrite (IH Hs); reflexivity.
Qed.

Lemma split_app_comma (t s : str) :
  comma_free t = true -> split comma (t ++ comma :: s) = t :: split comma s.
Proof.
  induction t as [|c t IH]; simpl; [reflexivity|].
  rewrite andb_true_iff; intros [Hc Ht].
  destruct (N.eqb c comma); [discriminate Hc|].
  rewrite (IH Ht); reflexivity.
Qed.

Lemma split_join (ts : list str) :
  ts <> [] -> forallb comma_free ts = true ->
  split comma (join [comma] ts) = ts.
Proof.
  induction ts as [|t ts IH]; [congruence|]; intros _.
  simpl forallb; rewrite andb_true_iff; intros [Ht Hts].
  destruct ts as [|t' ts].
  - simpl; apply split_comma_free; exact Ht.
  - change (join [comma] (t :: t' :: ts))
      with (t ++ comma :: join [comma] (t' :: ts)).
    rewrite split_app_comma by exact Ht.
    rewrite IH; [reflexivity | discriminate | exact Hts].
Qed.

Lemma lstrip_app_whitespace (l s : str) :
  whitespace l = true -> lstrip (l ++ s) = lstrip s.
Proof.
  induction l as [|c l IH]; simpl; [reflexivity|].
  rewrite andb_true_iff; intros [Hc Hl]; rewrite Hc; auto.
Qed.

Lemma lstrip_app_visible (t r : str) :
  lstrip t <> [] -> lstrip (t ++ r) = lstrip t ++ r.
Proof.
  induction t as [|c t IH]; simpl; [congruence|].
  destruct (isspace c); [exact IH | reflexivity].
Qed.

Lemma rstrip_app_whitespace (s r : str) :
  whitespace r = true -> rstrip (s ++ r) = rstrip s.
Proof.
  intros H; unfold rstrip; rewrite rev_app_distr.
  rewrite lstrip_app_whitespace; [reflexivity|].
  rewrite whitespace_rev; exact H.
Qed.

Lemma strip_written (l t r : str) :
  whitespace l = true -> whitespace r = true ->
  strip (l ++ t ++ r) = strip t.
Proof.
  intros Hl Hr; unfold strip.
  rewrite lstrip_app_whitespace by exact Hl.
  destruct (lstrip t) as [|c u] eqn:E.
  - apply lstrip_nil_iff in E.
    assert (W : whitespace (t ++ r) = true)
      by (rewrite whitespace_app, E, Hr; reflexivity).
    apply lstrip_nil_iff in W; rewrite W; reflexivity.
  - rewrite lstrip_app_visible by (rewrite E; discriminate).
    rewrite E; apply rstrip_app_whitespace; exact Hr.
Qed.

Lemma comma_free_app (a b : str) :
  comma_free (a ++ b) = comma_free a && comma_free b.
Proof. apply forallb_app. Qed.

(** ** The option model *)

Import TranscribeOptions.

Section Parsing.

Variable inherited : inherited_attrs.

Lemma set_flags_app (o : t) (pre rest : list str) :
  set_flags inherited o (pre ++ rest) =
  match set_flags inherited o pre with
  | Returns o' => set_flags inherited o' rest
  | Raises e => Raises e
  end.
Proof.
  revert o; induction pre as [|tok pre IH]; intros o; simpl; [reflexivity|].
  destruct (is_empty tok); [apply IH|].
  destruct (hasattr inherited o tok); [|reflexivity].
  destruct (setattr inherited o tok true); [apply IH | reflexivity].
Qed.

Lemma set_flags_visible (o : t) (toks : list str) :
  set_flags inherited o (filter visible toks) = set_flags inherited o toks.
Proof.
  revert o; induction toks as [|tok toks IH]; intros o; [reflexivity|].
  simpl; unfold visible at 1.
  destruct (is_empty tok) eqn:E; simpl; [apply IH|].
  rewrite E.
  destruct (hasattr inherited o tok); [|reflexivity].
  destruct (setattr inherited o tok true); [apply IH | reflexivity].
Qed.

(** The early return of [from_with_flags] agrees with the loop: the
    result is always the loop's, run on the trimmed pieces. *)
Lemma from_with_flags_loop (with_flags : str) :
  from_with_flags inherited with_flags =
  set_flags inherited cls (List.map strip (split comma with_flags)).
Proof.
  unfold from_with_flags.
  destruct (strip with_flags) as [|c u] eqn:E; simpl; [|reflexivity].
  assert (W : whitespace with_flags = true) by (apply strip_nil_iff; exact E).
  rewrite (split_comma_free _ (whitespace_comma_free _ W)); simpl.
  rewrite E; reflexivity.
Qed.

(** What the loop does at a token no attribute answers to: it raises,
    whatever follows. *)
Lemma set_flags_unknown (o : t) (tok : str) (rest : list str) :
  is_empty tok = false -> hasattr inherited o tok = false ->
  set_flags inherited o (tok :: rest) = Raises (unknown_option o tok).
Proof. intros E H; simpl; rewrite E, H; reflexivity. Qed.

Lemma set_flags_stops (o o' : t) (pre rest : list str) (tok : str) :
  set_flags inherited o pre = Returns o' ->
  is_empty tok = false -> hasattr inherited o' tok = false ->
  set_flags inherited o (pre ++ tok :: rest) = Raises (unknown_option o' tok).
Proof.
  intros Hpre E H; rewrite set_flags_app, Hpre.
  apply set_flags_unknown; assumption.
Qed.

(** The message names the token and the seven fields, as long as the
    instance does not hide [__dataclass_fields__]. *)
Lemma unknown_option_message (o : t) (tok : str) :
  mem (lit "__dataclass_fields__") (List.map fst (instance_attrs o)) = false ->
  unknown_option o tok =
  ValueError
    (lit "Unknown option '" ++ tok
     ++ lit "'. Valid options: identify_speakers, format, insert_section_headings, research_paras, add_summary_bullets, add_description, insert_frame_captures").
Proof.
  intros H; unfold unknown_option, valid_options; rewrite H; reflexivity.
Qed.

(** Once it does, the message cannot be built. *)
Lemma unknown_option_hidden (o : t) (tok : str) :
  mem (lit "__dataclass_fields__") (List.map fst (instance_attrs o)) = true ->
  unknown_option o tok = TypeError (lit "'bool' object is not iterable").
Proof.
  intros H; unfold unknown_option, valid_options; rewrite H; reflexivity.
Qed.

(** A name is answered by [hasattr] on a fresh instance exactly when it
    is a field, another attribute of the class, or inherited. *)
Lemma hasattr_cls (name : str) :
  hasattr inherited cls name =
  mem name dataclass_fields || mem name class_attrs
  || match inherited name with Absent => false | _ => true end.
Proof.
  unfold hasattr; simpl instance_attrs; simpl List.map.
  change (mem name []) with false; rewrite orb_false_r; reflexivity.
Qed.

(** A token [hasattr] does not answer to makes [from_with_flags] raise
    what the [else] branch raises on the instance as it stands ([o]),
    provided the tokens before it were accepted; nothing after it is
    looked at.  By [unknown_option_message] that is the [ValueError]
    naming the token and the seven fields, unless an earlier token
    stored [__dataclass_fields__] on the instance. *)
Lemma from_with_flags_rejects (with_flags tok : str) (pre rest : list str) (o : t) :
  List.map strip (split comma with_flags) = pre ++ tok :: rest ->
  set_flags inherited cls pre = Returns o ->
  is_empty tok = false -> hasattr inherited o tok = false ->
  from_with_flags inherited with_flags = Raises (unknown_option o tok).
Proof.
  intros Hs Hpre E H; rewrite from_with_flags_loop, Hs.
  eapply set_flags_stops; eassumption.
Qed.

(** C1.  The name of a method of the class is none of the seven flag
    names, and yet [from_with_flags] accepts it: [hasattr] answers to
    it, [setattr] stores [True] under it on the instance, and the call
    returns with every flag [false]. *)
Theorem from_with_flags_accepts_method_name :
  mem (lit "merge_with") dataclass_fields = false /\
  from_with_flags inherited (lit "merge_with") =
    Returns (mk false false false false false false false
                [(lit "merge_with", true)]).
Proof. split; reflexivity. Qed.

(** C8.  On the empty string and on any string of whitespace only,
    [from_with_flags] returns the default configuration, all seven flags
    [false], and raises nothing. *)
Theorem from_with_flags_blank (with_flags : str) :
  whitespace with_flags = true ->
  from_with_flags inherited with_flags =
    Returns (mk false false false false false false false []).
Proof.
  intros W; unfold from_with_flags.
  apply strip_nil_iff in W; rewrite W; reflexivity.
Qed.

Lemma written_comma_free (p : padded_token) :
  well_padded p = true -> comma_free (written p) = true.
Proof.
  destruct p as [[l u] r]; simpl.
  rewrite !andb_true_iff; intros [[Hl Hr] Hu].
  rewrite !comma_free_app, Hu, !whitespace_comma_free by assumption.
  reflexivity.
Qed.

Lemma strip_written_bare (p : padded_token) :
  well_padded p = true -> strip (written p) = strip (bare p).
Proof.
  destruct p as [[l u] r]; simpl.
  rewrite !andb_true_iff; intros [[Hl Hr] _].
  apply strip_written; assumption.
Qed.

Lemma split_join_map (f : padded_token -> str) (ps : list padded_token) :
  ps <> [] -> forallb (fun p => comma_free (f p)) ps = true ->
  split comma (join [comma] (List.map f ps)) = List.map f ps.
Proof.
  intros Hne H; apply split_join.
  - destruct ps; [congruence | discriminate].
  - rewrite forallb_forall in *; intros x Hx.
    apply in_map_iff in Hx; destruct Hx as [p [<- Hp]]; auto.
Qed.

(** C9.  Whitespace around a comma-separated token does not count: a
    flag string and the same string with each token padded by whitespace
    parse alike.  So [" format , insert_section_headings "] parses as
    ["format,insert_section_headings"], to the configuration with
    [format] and [insert_section_headings] set and the other five flags
    [false]. *)
Theorem from_with_flags_ignores_padding :
  (forall tokens : list padded_token,
      forallb well_padded tokens = true ->
      from_with_flags inherited (join [comma] (List.map written tokens)) =
      from_with_flags inherited (join [comma] (List.map bare tokens)))
  /\ from_with_flags inherited (lit " format , insert_section_headings ") =
     from_with_flags inherited (lit "format,insert_section_headings")
  /\ from_with_flags inherited (lit "format,insert_section_headings") =
     Returns (mk false true true false false false false []).
Proof.
  split; [|split; reflexivity].
  intros tokens H.
  destruct tokens as [|p ps]; [reflexivity|].
  rewrite !from_with_flags_loop.
  rewrite !split_join_map; try discriminate.
  - rewrite !map_map; f_equal.
    apply map_ext_in; intros q Hq; apply strip_written_bare.
    rewrite forallb_forall in H; auto.
  - rewrite forallb_forall in *; intros [[l u] r] Hq.
    specialize (H _ Hq); simpl in *.
    rewrite !andb_true_iff in H; tauto.
  - rewrite forallb_forall in *; intros q Hq.
    apply written_comma_free; auto.
Qed.

(** C10.  Tokens that are empty once trimmed are passed over: the result
    is the loop's on the tokens that are left.  So ["format,,"] parses,
    and parses as ["format"]; a leading comma, two commas in a row and a
    blank token do no more. *)
Theorem from_with_flags_skips_empty_tokens :
  (forall with_flags : str,
      from_with_flags inherited with_flags =
      set_flags inherited cls
        (filter visible (List.map strip (split comma with_flags))))
  /\ from_with_flags inherited (lit "format,,") =
     from_with_flags inherited (lit "format")
  /\ from_with_flags inherited (lit "format,,") =
     Returns (mk false true false false false false false [])
  /\ from_with_flags inherited (lit ",format") =
     from_with_flags inherited (lit "format")
  /\ from_with_flags inherited (lit "format,, ,insert_section_headings") =
     from_with_flags inherited (lit "format,insert_section_headings").
Proof.
  split; [|repeat split; reflexivity].
  intros s; rewrite set_flags_visible; apply from_with_flags_loop.
Qed.

End Parsing.

(** The generated [__eq__] is equality of the seven fields. *)
Lemma eq_fields_iff (a b : t) :
  __eq__ a b = true <->
  identify_speakers a = identify_speakers b /\ format a = format b
  /\ insert_section_headings a = insert_section_headings b
  /\ research_paras a = research_paras b
  /\ add_summary_bullets a = add_summary_bullets b
  /\ add_description a = add_description b
  /\ insert_frame_captures a = insert_frame_captures b.
Proof.
  unfold __eq__; rewrite !andb_true_iff, !eqb_true_iff; tauto.
Qed.

Lemma eq_fields_refl (a : t) : __eq__ a a = true.
Proof. apply eq_fields_iff; repeat split. Qed.

(** A merged instance is fresh, so on merges the instances themselves
    coincide, not only their fields. *)
Lemma merge_with_comm (a b : t) : merge_with a b = merge_with b a.
Proof.
  unfold merge_with; f_equal; apply orb_comm.
Qed.

Lemma merge_with_assoc (a b c : t) :
  merge_with (merge_with a b) c = merge_with a (merge_with b c).
Proof.
  unfold merge_with; simpl; f_equal; symmetry; apply orb_assoc.
Qed.

(** C5.  [merge_with] is the logical or of the two operands on each of
    the seven flags; under [==] it is commutative and associative, and
    [basic()] is its identity. *)
Theorem merge_with_or_monoid (a b c : t) :
  (identify_speakers (merge_with a b) = identify_speakers a || identify_speakers b
   /\ format (merge_with a b) = format a || format b
   /\ insert_section_headings (merge_with a b)
      = insert_section_headings a || insert_section_headings b
   /\ research_paras (merge_with a b) = research_paras a || research_paras b
   /\ add_summary_bullets (merge_with a b)
      = add_summary_bullets a || add_summary_bullets b
   /\ add_description (merge_with a b) = add_description a || add_description b
   /\ insert_frame_captures (merge_with a b)
      = insert_frame_captures a || insert_frame_captures b)
  /\ __eq__ (merge_with a b) (merge_with b a) = true
  /\ __eq__ (merge_with (merge_with a b) c) (merge_with a (merge_with b c))
     = true
  /\ __eq__ (merge_with basic a) a = true
  /\ __eq__ (merge_with a basic) a = true.
Proof.
  split; [repeat split|].
  split; [rewrite merge_with_comm; apply eq_fields_refl|].
  split; [rewrite merge_with_assoc; apply eq_fields_refl|].
  split; apply eq_fields_iff; simpl; rewrite ?orb_false_r; repeat split.
Qed.

(** C6.  The presets are the rows of the table: [basic] sets nothing,
    [formatted] sets [format] and [identify_speakers] only, [deep] sets
    all seven, and [annotated] is [deep] without [research_paras]. *)
Theorem presets_table :
  basic = mk false false false false false false false []
  /\ formatted = mk true true false false false false false []
  /\ annotated = mk true true true false true true true []
  /\ deep = mk true true true true true true true []
  /\ research_paras annotated = false
  /\ research_paras deep = true
  /\ identify_speakers annotated = identify_speakers deep
  /\ format annotated = format deep
  /\ insert_section_headings annotated = insert_section_headings deep
  /\ add_summary_bullets annotated = add_summary_bullets deep
  /\ add_description annotated = add_description deep
  /\ insert_frame_captures annotated = insert_frame_captures deep.
Proof. repeat split. Qed.

(** ** The orchestrator *)

Import Pipeline.

Section Orchestrator.

Variables Item World Failure : Type.
Variable perform : Kash.action -> Item -> World -> (Failure + Item) * World.

Local Abbreviation call := (Pipeline.call Item Failure).
Local Abbreviation state := (Pipeline.state Item World Failure).
Local Abbreviation chain := (Pipeline.chain perform).
Local Abbreviation run_steps := (Pipeline.run_steps perform).
Local Abbreviation transcribe_with_options := (Pipeline.transcribe_with_options perform).

Ltac step_through :=
  repeat match goal with
         | |- context [perform ?a ?x ?w] =>
             destruct (perform a x w) as [[?|?] ?]; cbn
         end.

(** The conditionals of [transcribe_with_options] run the steps of the
    specification's list, in its order. *)
Lemma transcribe_with_options_steps item options language (st : state) :
  transcribe_with_options item options language st =
  run_steps (spec_steps options language) item st.
Proof.
  destruct options as [a b c d e f g x].
  destruct a, b, c, d, e, f, g;
    cbv [Pipeline.transcribe_with_options spec_steps Pipeline.run_steps
         bind ret invoke app TranscribeOptions.format
         TranscribeOptions.identify_speakers
         TranscribeOptions.insert_section_headings
         TranscribeOptions.research_paras
         TranscribeOptions.add_summary_bullets
         TranscribeOptions.add_description
         TranscribeOptions.insert_frame_captures world calls];
    step_through; reflexivity.
Qed.

(** What a run of a list of steps leaves behind: the calls it adds form
    a chain from the item it was given, they follow the list, and they
    exhaust it unless one failed. *)
Lemma run_steps_chain steps : forall item (st : state) r st',
  run_steps steps item st = (r, st') ->
  exists cs : list call,
    calls st' = calls st ++ cs
    /\ chain item (world st) cs r (world st')
    /\ (exists rest, steps = List.map (@callee _ _) cs ++ rest)
    /\ (forall out, r = inr out -> List.map (@callee _ _) cs = steps).
Proof.
  induction steps as [|a steps IH]; intros item st r st' H.
  - cbn in H; inversion H; subst; exists []; rewrite app_nil_r.
    repeat split; [constructor | exists []; reflexivity].
  - cbn in H; unfold bind, invoke in H.
    destruct (perform a item (world st)) as [[e|out] w1] eqn:P.
    + inversion H; subst; cbn.
      exists [mkcall a item (inl e)]; repeat split.
      * apply chain_fail; exact P.
      * exists steps; reflexivity.
      * discriminate.
    + apply IH in H; cbn in H.
      destruct H as [cs [Hc [Hch [[rest Hrest] Hall]]]].
      exists (mkcall a item (inr out) :: cs); repeat split.
      * rewrite Hc, <- app_assoc; reflexivity.
      * eapply chain_step; eassumption.
      * exists rest; cbn; rewrite Hrest at 1; reflexivity.
      * intros y Hy; cbn; rewrite (Hall y Hy); reflexivity.
Qed.

Lemma chain_succeeded item w cs out w' :
  chain item w cs (inr out) w' -> forallb (@succeeded _ _) cs = true.
Proof.
  intros H; remember (inr out) as r eqn:E; revert out E.
  induction H; intros y E; [reflexivity | cbn; eauto | discriminate].
Qed.


(** In a chain every call but the first is made on what the call before
    it returned. *)
Lemma chain_links item w cs r w' :
  chain item w cs r w' ->
  forall before (c1 c2 : call) after,
    cs = before ++ c1 :: c2 :: after -> result c1 = inr (argument c2).
Proof.
  induction 1 as [item w | a item w out w1 cs r w' P H IH | a item w e w1 P];
    intros before c1 c2 after E.
  - destruct before; discriminate.
  - destruct before as [|b before]; cbn in E; inversion E; subst.
    + inversion H; subst; reflexivity.
    + eapply IH; reflexivity.
  - destruct before as [|b [|b' before]]; discriminate.
Qed.

Lemma chain_first item w (c : call) cs r w' :
  chain item w (c :: cs) r w' ->
  argument c = item /\ result c = fst (perform (callee c) item w).
Proof.
  intros H; inversion H; subst; cbn;
    match goal with P : perform _ _ _ = _ |- _ => rewrite P end; auto.
Qed.



(** Every run of [transcribe_with_options] from a fresh record of calls,
    summed up: the calls form a chain from the input item, they follow
    the list of steps of the configuration, and they exhaust it when the
    run returns. *)
Lemma transcribe_with_options_run item options language w :
  let out := transcribe_with_options item options language (start w) in
  chain item w (calls (snd out)) (fst out) (world (snd out))
  /\ (exists rest,
        spec_steps options language
        = List.map (@callee _ _) (calls (snd out)) ++ rest)
  /\ (forall res, fst out = inr res ->
        List.map (@callee _ _) (calls (snd out)) = spec_steps options language).
Proof.
  cbv zeta.
  destruct (transcribe_with_options item options language (start w))
    as [r st'] eqn:E.
  rewrite transcribe_with_options_steps in E.
  apply run_steps_chain in E; cbn in E.
  destruct E as [cs [Hc [Hch [Hpre Hall]]]]; cbn [fst snd]; rewrite Hc; auto.
Qed.

(** C2.  The four steps of the formatting pipeline are called only under
    [format].  Without it none of them is called, whatever
    [identify_speakers] says.  With it, HTML stripping, paragraph
    breaking and timestamp backfill are called once each, in that order,
    after speaker identification when [identify_speakers] is set and
    without it otherwise: all of them when the run returns, and up to
    the call that failed when it does not.  The calls spoken of are
    calls really made: each is the collaborator applied to what the call
    before it returned, in the world that call left. *)
Theorem format_gates_formatting item options language w :
  let out := transcribe_with_options item options language (start w) in
  let invoked := List.map (@callee _ _) (calls (snd out)) in
  let bundle :=
    (if TranscribeOptions.identify_speakers options
     then [Kash.identify_speakers] else [])
    ++ [Kash.strip_html; Kash.break_into_paragraphs;
        Kash.backfill_timestamps] in
  (TranscribeOptions.format options = false ->
     filter Kash.is_formatting invoked = [])
  /\ (TranscribeOptions.format options = true ->
      exists rest,
        bundle = filter Kash.is_formatting invoked ++ rest
        /\ (forall res, fst out = inr res -> rest = []))
  /\ chain item w (calls (snd out)) (fst out) (world (snd out)).
Proof.
  intros out invoked bundle.
  destruct (transcribe_with_options_run item options language w)
    as [Hch [[rest Hrest] Hall]].
  fold out in Hch, Hrest, Hall; fold invoked in Hrest, Hall.
  split; [|split; [|exact Hch]]; intros Hf.
  - assert (F : filter Kash.is_formatting (spec_steps options language) = []).
    { destruct options as [a b c d e f g x]; cbn in Hf; subst b.
      destruct a, c, d, e, f, g; reflexivity. }
    rewrite Hrest, filter_app in F.
    apply app_eq_nil in F; tauto.
  - assert (F : filter Kash.is_formatting (spec_steps options language) = bundle).
    { subst bundle; destruct options as [a b c d e f g x]; cbn in Hf; subst b.
      destruct a, c, d, e, f, g; reflexivity. }
    exists (filter Kash.is_formatting rest); split.
    + rewrite <- F, Hrest, filter_app; reflexivity.
    + intros res Hres; specialize (Hall res Hres).
      rewrite Hall in Hrest.
      rewrite <- (app_nil_r (spec_steps options language)) in Hrest at 1.
      apply app_inv_head in Hrest; subst rest; reflexivity.
Qed.

Lemma spec_steps_fixed_order options language :
  spec_steps options language =
  filter (enabled options) (fixed_order language).
Proof.
  destruct options as [a b c d e f g x].
  destruct a, b, c, d, e, f, g; reflexivity.
Qed.

(** C3.  The steps [transcribe_with_options] calls, and their order, are
    those the flags pick out of the one fixed sequence of ten: the calls
    follow that selection from its start, reach its end when the run
    returns, and each call after the first is made on the item the call
    before it returned.  For [deep()] the selection is all ten steps. *)
Theorem steps_follow_configuration item options language w :
  let out := transcribe_with_options item options language (start w) in
  let made := calls (snd out) in
  let selected := filter (enabled options) (fixed_order language) in
  (exists rest, selected = List.map (@callee _ _) made ++ rest)
  /\ (forall res, fst out = inr res -> List.map (@callee _ _) made = selected)
  /\ chain item w made (fst out) (world (snd out))
  /\ (forall before c1 c2 after,
        made = before ++ c1 :: c2 :: after ->
        result c1 = inr (argument c2))
  /\ filter (enabled TranscribeOptions.deep) (fixed_order language) =
     [ Kash.transcribe language; Kash.identify_speakers; Kash.strip_html;
       Kash.break_into_paragraphs; Kash.backfill_timestamps;
       Kash.insert_section_headings; Kash.research_paras;
       Kash.add_summary_bullets; Kash.add_description;
       Kash.insert_frame_captures ].
Proof.
  intros out made selected.
  destruct (transcribe_with_options_run item options language w)
    as [Hch [Hpre Hall]].
  fold out in Hch, Hpre, Hall; fold made in Hch, Hpre, Hall.
  rewrite spec_steps_fixed_order in Hpre, Hall.
  fold selected in Hpre, Hall.
  repeat split; auto.
  intros before c1 c2 after E; eapply chain_links; eassumption.
Qed.




End Orchestrator.

(** ** Concrete runs *)

(** Blank input, with a tab, a newline and an ideographic space in it. *)
Lemma from_with_flags_blank_run :
  whitespace [32; 9; 10; 12288]%N = true
  /\ from_with_flags some_inherited [32; 9; 10; 12288]%N =
     Returns (mk false false false false false false false []).
Proof.
  split; [reflexivity|].
  apply (from_with_flags_blank some_inherited [32; 9; 10; 12288]%N).
  reflexivity.
Defined.

(** The padded flag string of the tests. *)
Lemma from_with_flags_padding_run :
  let tokens := [ (lit " ", lit "format", lit " ");
                  (lit " ", lit "insert_section_headings", lit " ") ] in
  forallb well_padded tokens = true
  /\ join [comma] (List.map written tokens)
     = lit " format , insert_section_headings "
  /\ from_with_flags some_inherited (join [comma] (List.map written tokens)) =
     from_with_flags some_inherited (join [comma] (List.map bare tokens)).
Proof.
  intros tokens; split; [reflexivity | split; [reflexivity|]].
  apply (proj1 (from_with_flags_ignores_padding some_inherited) tokens).
  reflexivity.
Defined.

(** [identify_speakers] without [format] calls no formatting step;
    [formatted()] calls the four of them. *)
Lemma format_gates_formatting_run :
  let unformatted := mk true false true false false false false [] in
  let invoked options :=
    List.map (@callee _ _)
      (calls (snd (Pipeline.transcribe_with_options (stub never) []
                     options (lit "en") (start 0)))) in
  format unformatted = false
  /\ filter Kash.is_formatting (invoked unformatted) = []
  /\ format formatted = true
  /\ exists rest,
       [Kash.identify_speakers; Kash.strip_html; Kash.break_into_paragraphs;
        Kash.backfill_timestamps]
       = filter Kash.is_formatting (invoked formatted) ++ rest.
Proof.
  intros unformatted invoked.
  split; [reflexivity | split; [|split; [reflexivity|]]].
  - apply (proj1 (format_gates_formatting (stub never) []
                    unformatted (lit "en") 0)).
    reflexivity.
  - destruct (proj1 (proj2 (format_gates_formatting (stub never) []
                              formatted (lit "en") 0)) eq_refl)
      as [rest [H _]].
    exists rest; exact H.
Defined.

(** [deep()] with collaborators that all succeed: the ten calls. *)
Lemma steps_follow_configuration_run :
  let out := Pipeline.transcribe_with_options (stub never) []
               deep (lit "en") (start 0) in
  fst out = inr (fixed_order (lit "en"))
  /\ List.map (@callee _ _) (calls (snd out)) = fixed_order (lit "en").
Proof.
  intros out; split; [reflexivity|].
  apply (proj1 (proj2 (steps_follow_configuration (stub never) []
                         deep (lit "en") 0)) (fixed_order (lit "en"))).
  reflexivity.
Defined.


(** * Further properties of the code *)

(** ** Flag strings: which are taken, and to what *)

Lemma eqb_sym (a b : str) : PyStr.eqb a b = PyStr.eqb b a.
Proof.
  destruct (PyStr.eqb a b) eqn:E.
  - apply eqb_eq in E; subst; symmetry; apply eqb_refl.
  - destruct (PyStr.eqb b a) eqn:E'; [|reflexivity].
    apply eqb_eq in E'; subst; rewrite eqb_refl in E; discriminate.
Qed.

Lemma mem_In (name : str) (names : list str) :
  mem name names = true <-> In name names.
Proof.
  unfold mem; rewrite existsb_exists; split.
  - intros [x [Hx E]]; apply eqb_eq in E; subst; exact Hx.
  - intros H; exists name; split; [exact H | apply eqb_refl].
Qed.

Lemma mem_app (name : str) (l1 l2 : list str) :
  mem name (l1 ++ l2) = mem name l1 || mem name l2.
Proof. apply existsb_app. Qed.

Lemma store_keys (name : str) (value : bool) (d : list (str * bool)) (k : str) :
  In k (List.map fst (store name value d)) ->
  k = name \/ In k (List.map fst d).
Proof.
  induction d as [|[k0 v0] d IH]; simpl.
  - intros [<-|[]]; auto.
  - destruct (PyStr.eqb k0 name); simpl; intros [<-|H]; auto.
    destruct (IH H); auto.
Qed.

Lemma store_mem (name k : str) (value : bool) (d : list (str * bool)) :
  mem name (List.map fst (store k value d))
  = PyStr.eqb name k || mem name (List.map fst d).
Proof.
  unfold mem; induction d as [|[k0 v0] d IH]; cbn [store List.map fst existsb].
  - reflexivity.
  - destruct (PyStr.eqb k0 k) eqn:E; cbn [List.map fst existsb].
    + apply eqb_eq in E; subst k0.
      destruct (PyStr.eqb name k); reflexivity.
    + rewrite IH.
      destruct (PyStr.eqb name k0), (PyStr.eqb name k); reflexivity.
Qed.

Lemma first_refused (A : Type) (p : A -> bool) (l : list A) :
  forallb p l = false ->
  exists pre x rest,
    l = pre ++ x :: rest /\ forallb p pre = true /\ p x = false.
Proof.
  induction l as [|a l IH]; simpl; [discriminate|].
  destruct (p a) eqn:E; simpl.
  - intros H; destruct (IH H) as [pre [x [rest [-> [Hp Hx]]]]].
    exists (a :: pre), x, rest; simpl; rewrite E; auto.
  - intros _; exists [], a, l; auto.
Qed.

Lemma raised_step (x x1 x' : bool) (name tok : str) (toks : list str) :
  x1 = x || PyStr.eqb tok name -> x' = x1 || mem name toks ->
  x' = x || mem name (tok :: toks).
Proof.
  intros -> ->; unfold mem; simpl existsb.
  rewrite (eqb_sym name tok), orb_assoc; reflexivity.
Qed.

Lemma raised_skip (x x' : bool) (name : str) (toks : list str) :
  is_empty name = false -> x' = x || mem name toks ->
  x' = x || mem name ([] :: toks).
Proof.
  intros E ->; unfold mem; simpl existsb.
  destruct name; [discriminate E | reflexivity].
Qed.

Lemma lstrip_fixed (s : str) : lstrip (lstrip s) = lstrip s.
Proof.
  destruct (lstrip s) as [|c u] eqn:E; [reflexivity|].
  simpl; rewrite (lstrip_head _ E); reflexivity.
Qed.

Lemma lstrip_app_last (l : str) (c : char) :
  isspace c = false -> lstrip (l ++ [c]) = lstrip l ++ [c].
Proof.
  intros Hc; induction l as [|x l IH]; simpl; [rewrite Hc; reflexivity|].
  destruct (isspace x); [exact IH | reflexivity].
Qed.

Lemma rstrip_cons (c : char) (u : str) :
  isspace c = false -> rstrip (c :: u) = c :: rstrip u.
Proof.
  intros Hc; unfold rstrip; simpl rev.
  rewrite lstrip_app_last by exact Hc.
  rewrite rev_app_distr; reflexivity.
Qed.

(** Trimming what is trimmed changes nothing. *)
Lemma strip_fixed (s : str) : strip (strip s) = strip s.
Proof.
  unfold strip.
  destruct (lstrip s) as [|c u] eqn:E; [reflexivity|].
  pose proof (lstrip_head _ E) as Hc.
  rewrite (@rstrip_cons c u Hc); simpl lstrip; rewrite Hc.
  rewrite <- (@rstrip_cons c u Hc).
  unfold rstrip; rewrite rev_involutive, lstrip_fixed; reflexivity.
Qed.

Lemma comma_free_rev (s : str) : comma_free (rev s) = comma_free s.
Proof.
  induction s as [|c s IH]; simpl; [reflexivity|].
  rewrite comma_free_app, IH; simpl.
  rewrite andb_true_r; apply andb_comm.
Qed.

Lemma comma_free_lstrip (s : str) :
  comma_free s = true -> comma_free (lstrip s) = true.
Proof.
  induction s as [|c s IH]; simpl; [reflexivity|].
  destruct (isspace c); [|exact (fun H => H)].
  rewrite andb_true_iff; intros [_ H]; auto.
Qed.

Lemma comma_free_strip (s : str) :
  comma_free s = true -> comma_free (strip s) = true.
Proof.
  intros H; unfold strip, rstrip.
  rewrite comma_free_rev; apply comma_free_lstrip.
  rewrite comma_free_rev; apply comma_free_lstrip; exact H.
Qed.

Lemma split_comma_free_pieces (s : str) :
  forallb comma_free (split comma s) = true.
Proof.
  induction s as [|c s IH]; simpl; [reflexivity|].
  destruct (N.eqb c comma) eqn:E; [exact IH|].
  destruct (split comma s) as [|p ps]; simpl in *; rewrite E; [reflexivity|].
  exact IH.
Qed.

Lemma split_app (a b : str) :
  split comma (a ++ comma :: b) = split comma a ++ split comma b.
Proof.
  induction a as [|c a IH]; simpl.
  - reflexivity.
  - destruct (N.eqb c comma); [rewrite IH; reflexivity|].
    rewrite IH.
    pose proof (split_not_nil comma a) as N.
    destruct (split comma a); [congruence | reflexivity].
Qed.

(** A piece of a flag string is trimmed and holds no comma. *)
Lemma tokens_shape (with_flags tok : str) :
  In tok (tokens with_flags) -> strip tok = tok /\ comma_free tok = true.
Proof.
  unfold tokens; rewrite in_map_iff; intros [p [<- Hp]].
  split; [apply strip_fixed|].
  apply comma_free_strip.
  pose proof (split_comma_free_pieces with_flags) as H.
  rewrite forallb_forall in H; auto.
Qed.

Lemma tokens_app (a b : str) :
  tokens (a ++ comma :: b) = tokens a ++ tokens b.
Proof. unfold tokens; rewrite split_app, map_app; reflexivity. Qed.

Section FlagStrings.

Variable inherited : inherited_attrs.

Lemma hasattr_settled (o : t) (tok : str) :
  settled inherited o = true ->
  hasattr inherited o tok = hasattr inherited cls tok.
Proof.
  intros S; rewrite hasattr_cls; unfold hasattr.
  destruct (mem tok (List.map fst (instance_attrs o))) eqn:K.
  - apply mem_In in K.
    unfold settled in S; rewrite forallb_forall in S.
    specialize (S _ K); rewrite hasattr_cls in S.
    rewrite orb_true_r; simpl; symmetry; exact S.
  - rewrite orb_false_r; reflexivity.
Qed.

(** Whether [setattr] raises is a matter of the name alone. *)
Lemma setattr_raises (o : t) (tok : str) (value : bool) (e : exn) :
  setattr inherited o tok value = Raises e <->
  setattr inherited cls tok value = Raises e.
Proof.
  destruct o as [a b c d e0 f g x]; unfold setattr, cls.
  repeat match goal with
         | |- context [if PyStr.eqb tok ?l then _ else _] =>
             destruct (PyStr.eqb tok l); [split; discriminate|]
         end.
  destruct (mem tok class_attrs); [split; discriminate|].
  destruct (inherited tok); split; intros H; try discriminate H;
    inversion H; reflexivity.
Qed.

(** What an accepted [setattr(options, tok, True)] leaves: the field of
    that name set, the others as they were, and no key stored but
    [tok]. *)
Lemma setattr_true (o o' : t) (tok : str) :
  setattr inherited o tok true = Returns o' ->
  (identify_speakers o'
   = identify_speakers o || PyStr.eqb tok (lit "identify_speakers")
   /\ format o' = format o || PyStr.eqb tok (lit "format")
   /\ insert_section_headings o'
      = insert_section_headings o || PyStr.eqb tok (lit "insert_section_headings")
   /\ research_paras o' = research_paras o || PyStr.eqb tok (lit "research_paras")
   /\ add_summary_bullets o'
      = add_summary_bullets o || PyStr.eqb tok (lit "add_summary_bullets")
   /\ add_description o' = add_description o || PyStr.eqb tok (lit "add_description")
   /\ insert_frame_captures o'
      = insert_frame_captures o || PyStr.eqb tok (lit "insert_frame_captures"))
  /\ (forall k, In k (List.map fst (instance_attrs o')) ->
        k = tok \/ In k (List.map fst (instance_attrs o))).
Proof.
  destruct o as [a b c d e f g x]; unfold setattr.
  repeat match goal with
         | |- context [if PyStr.eqb tok ?l then _ else _] =>
             let E := fresh "E" in
             destruct (PyStr.eqb tok l) eqn:E;
             [ apply eqb_eq in E; subst tok; intros H; inversion H; subst;
               split; [cbn; rewrite ?orb_true_r, ?orb_false_r; repeat split
                      | cbn; auto ]
             | ]
         end.
  intros H.
  assert (H' : Returns (mk a b c d e f g (store tok true x)) = Returns o').
  { destruct (mem tok class_attrs); [exact H|].
    destruct (inherited tok); try discriminate H; exact H. }
  inversion H'; subst; cbn.
  repeat match goal with
         | E : PyStr.eqb _ _ = false |- _ => rewrite E; clear E
         end.
  rewrite ?orb_false_r; split; [repeat split | intros k; apply store_keys].
Qed.

Lemma accepted_inv (tok : str) :
  accepted inherited tok = true ->
  is_empty tok = true
  \/ (is_empty tok = false /\ hasattr inherited cls tok = true
      /\ exists o1, setattr inherited cls tok true = Returns o1).
Proof.
  unfold accepted; cbn [set_flags].
  destruct (is_empty tok); [auto|].
  destruct (hasattr inherited cls tok); [|discriminate].
  destruct (setattr inherited cls tok true) as [o1|e]; simpl; [|discriminate].
  intros _; right; repeat split; eauto.
Qed.

Lemma refused_alone (tok : str) :
  accepted inherited tok = false ->
  exists e, set_flags inherited cls [tok] = Raises e.
Proof.
  unfold accepted.
  destruct (set_flags inherited cls [tok]) as [o|e]; [discriminate | eauto].
Qed.

(** What one token raises alone: the [ValueError] that names it, or the
    interpreter's refusal to assign. *)
Lemma setattr_raises_what (o : t) (tok : str) (value : bool) (e : exn) :
  setattr inherited o tok value = Raises e -> e = SetattrError tok.
Proof.
  destruct o as [a b c d e0 f g x]; unfold setattr.
  repeat match goal with
         | |- context [if ?b then _ else _] => destruct b; [discriminate|]
         end.
  destruct (inherited tok); try discriminate.
  intros S; inversion S; reflexivity.
Qed.

(** What one token raises alone: the [ValueError] that names it, or the
    interpreter's refusal to assign. *)
Lemma refused_how (tok : str) (e : exn) :
  set_flags inherited cls [tok] = Raises e ->
  is_empty tok = false
  /\ (e = unknown_option cls tok /\ hasattr inherited cls tok = false
      \/ e = SetattrError tok /\ hasattr inherited cls tok = true).
Proof.
  cbn [set_flags]; destruct (is_empty tok); [discriminate|].
  destruct (hasattr inherited cls tok).
  - destruct (setattr inherited cls tok true) as [o1|e1] eqn:S; [discriminate|].
    intros H; inversion H; subst; split; [reflexivity|right; split; auto].
    exact (@setattr_raises_what cls tok true e S).
  - intros H; inversion H; auto.
Qed.

(** The names stored on the instance after an accepted [setattr]: the
    token, unless it is a field, and what was there. *)
Lemma setattr_stored (o o' : t) (tok name : str) (value : bool) :
  setattr inherited o tok value = Returns o' ->
  mem name dataclass_fields = false ->
  mem name (List.map fst (instance_attrs o'))
  = PyStr.eqb name tok || mem name (List.map fst (instance_attrs o)).
Proof.
  intros H F; unfold mem at 1, dataclass_fields in F; cbn [existsb] in F.
  repeat match type of F with
         | _ || _ = false =>
             let F1 := fresh "F" in
             apply orb_false_iff in F; destruct F as [F1 F]
         end.
  revert H; destruct o as [a b c d e f g x]; unfold setattr.
  repeat match goal with
         | |- context [if PyStr.eqb tok ?l then _ else _] =>
             let E := fresh "E" in
             destruct (PyStr.eqb tok l) eqn:E;
             [ apply eqb_eq in E; subst tok; intros H; inversion H; subst;
               cbn [instance_attrs];
               match goal with
               | Fi : PyStr.eqb name l = false |- _ => rewrite Fi
               end; reflexivity
             | ]
         end.
  intros H.
  assert (H' : Returns (mk a b c d e f g (store tok value x)) = Returns o').
  { destruct (mem tok class_attrs); [exact H|].
    destruct (inherited tok); try discriminate H; exact H. }
  inversion H'; subst; cbn [instance_attrs]; apply store_mem.
Qed.

(** The names stored on the instance when the loop returns: those that
    were there, and the tokens that are no field. *)
Lemma set_flags_stored (name : str) (toks : list str) : forall o o' : t,
  set_flags inherited o toks = Returns o' ->
  mem name dataclass_fields = false -> is_empty name = false ->
  mem name (List.map fst (instance_attrs o'))
  = mem name (List.map fst (instance_attrs o)) || mem name toks.
Proof.
  induction toks as [|tok toks IH]; intros o o' H F N.
  - inversion H; subst; change (mem name []) with false.
    rewrite orb_false_r; reflexivity.
  - cbn [set_flags] in H.
    destruct (is_empty tok) eqn:E.
    + rewrite (IH _ _ H F N); destruct tok; [|discriminate E].
      change (mem name ([] :: toks)) with (PyStr.eqb name [] || mem name toks).
      destruct name; [discriminate N | reflexivity].
    + destruct (hasattr inherited o tok); [|discriminate H].
      destruct (setattr inherited o tok true) as [o1|e] eqn:S;
        [|discriminate H].
      rewrite (IH _ _ H F N), (@setattr_stored o o1 tok name true S F).
      change (mem name (tok :: toks))
        with (PyStr.eqb name tok || mem name toks).
      destruct (PyStr.eqb name tok), (mem name (List.map fst (instance_attrs o)));
        reflexivity.
Qed.

Local Abbreviation flags_raised o o' toks :=
  (identify_speakers o'
   = identify_speakers o || mem (lit "identify_speakers") toks
   /\ format o' = format o || mem (lit "format") toks
   /\ insert_section_headings o'
      = insert_section_headings o || mem (lit "insert_section_headings") toks
   /\ research_paras o' = research_paras o || mem (lit "research_paras") toks
   /\ add_summary_bullets o'
      = add_summary_bullets o || mem (lit "add_summary_bullets") toks
   /\ add_description o' = add_description o || mem (lit "add_description") toks
   /\ insert_frame_captures o'
      = insert_frame_captures o || mem (lit "insert_frame_captures") toks).

(** The loop on tokens that are all accepted alone: it returns, with
    each flag set that was set or is named. *)
Lemma set_flags_accepted (toks : list str) : forall o : t,
  settled inherited o = true ->
  forallb (accepted inherited) toks = true ->
  exists o',
    set_flags inherited o toks = Returns o'
    /\ settled inherited o' = true
    /\ flags_raised o o' toks.
Proof.
  induction toks as [|tok toks IH]; intros o S A.
  - exists o; unfold mem; simpl existsb; rewrite !orb_false_r.
    repeat split; auto.
  - simpl in A; apply andb_true_iff in A; destruct A as [At A].
    destruct (accepted_inv _ At) as [E | [E [Hh [o1 Hs]]]].
    + destruct tok; [|discriminate E].
      destruct (IH o S A) as [o' [R [S' F]]].
      destruct F as (f1 & f2 & f3 & f4 & f5 & f6 & f7).
      exists o'; split; [exact R | split; [exact S'|]].
      split; [apply raised_skip; [reflexivity | exact f1]|].
      split; [apply raised_skip; [reflexivity | exact f2]|].
      split; [apply raised_skip; [reflexivity | exact f3]|].
      split; [apply raised_skip; [reflexivity | exact f4]|].
      split; [apply raised_skip; [reflexivity | exact f5]|].
      split; [apply raised_skip; [reflexivity | exact f6]|].
      apply raised_skip; [reflexivity | exact f7].
    + cbn [set_flags]; rewrite E, (@hasattr_settled o tok S), Hh.
      destruct (setattr inherited o tok true) as [o2|e] eqn:Ho.
      * destruct (setattr_true _ _ Ho) as [Hf Hk].
        assert (S2 : settled inherited o2 = true).
        { unfold settled in *; rewrite forallb_forall in *.
          intros k Hin; destruct (Hk k Hin) as [->|Hin']; auto. }
        destruct (IH o2 S2 A) as [o' [R [S' F]]].
        destruct Hf as (h1 & h2 & h3 & h4 & h5 & h6 & h7).
        destruct F as (f1 & f2 & f3 & f4 & f5 & f6 & f7).
        exists o'; split; [exact R | split; [exact S'|]].
        split; [eapply raised_step; [exact h1 | exact f1]|].
        split; [eapply raised_step; [exact h2 | exact f2]|].
        split; [eapply raised_step; [exact h3 | exact f3]|].
        split; [eapply raised_step; [exact h4 | exact f4]|].
        split; [eapply raised_step; [exact h5 | exact f5]|].
        split; [eapply raised_step; [exact h6 | exact f6]|].
        eapply raised_step; [exact h7 | exact f7].
      * apply setattr_raises in Ho; rewrite Ho in Hs; discriminate.
Qed.

(** The loop at a token that is refused alone: it raises what the token
    raises alone, seen from the instance as it stands. *)
Lemma set_flags_refused (o : t) (tok : str) (rest : list str) :
  settled inherited o = true ->
  accepted inherited tok = false ->
  exists e0,
    set_flags inherited cls [tok] = Raises e0
    /\ set_flags inherited o (tok :: rest)
       = Raises (raised_after (List.map fst (instance_attrs o)) e0).
Proof.
  intros S A; unfold accepted in A; cbn [set_flags] in *.
  destruct (is_empty tok); [discriminate|].
  rewrite (@hasattr_settled o tok S).
  destruct (hasattr inherited cls tok).
  - destruct (setattr inherited cls tok true) as [o1|e] eqn:Hc; [discriminate|].
    pose proof (@setattr_raises_what cls tok true e Hc) as He; subst e.
    exists (SetattrError tok); split; [reflexivity|].
    apply (setattr_raises o) in Hc; rewrite Hc; reflexivity.
  - exists (unknown_option cls tok); split; [reflexivity|].
    unfold unknown_option, valid_options, raised_after.
    cbn [instance_attrs cls List.map]; change (mem _ []) with false.
    cbv iota.
    destruct (mem (lit "__dataclass_fields__")
                (List.map fst (instance_attrs o))); reflexivity.
Qed.

Lemma settled_cls : settled inherited cls = true.
Proof. reflexivity. Qed.

Lemma set_flags_first_refused (pre rest : list str) (tok : str) :
  forallb (accepted inherited) pre = true ->
  accepted inherited tok = false ->
  exists e0,
    set_flags inherited cls [tok] = Raises e0
    /\ set_flags inherited cls (pre ++ tok :: rest)
       = Raises (raised_after pre e0).
Proof.
  intros A R; rewrite set_flags_app.
  destruct (set_flags_accepted pre cls settled_cls A) as [o1 [Hp [S1 _]]].
  rewrite Hp.
  destruct (set_flags_refused o1 tok rest S1 R) as [e0 [He0 Hr]].
  exists e0; split; [exact He0|]; rewrite Hr.
  unfold raised_after.
  rewrite (set_flags_stored (lit "__dataclass_fields__") pre _ Hp
             eq_refl eq_refl).
  reflexivity.
Qed.

(** A piece of a flag string, given as the whole flag string, goes
    through the loop as the one token. *)
Lemma from_with_flags_alone (with_flags tok : str) :
  In tok (tokens with_flags) ->
  from_with_flags inherited tok = set_flags inherited cls [tok].
Proof.
  intros H; destruct (tokens_shape _ _ H) as [Hs Hc].
  rewrite from_with_flags_loop, (split_comma_free _ Hc).
  simpl List.map; rewrite Hs; reflexivity.
Qed.

Lemma accepted_returns (tok : str) :
  accepted inherited tok = true <->
  exists o, set_flags inherited cls [tok] = Returns o.
Proof.
  unfold accepted.
  destruct (set_flags inherited cls [tok]) as [o|e]; split; eauto;
    try discriminate.
  intros [o H]; discriminate H.
Qed.

(** The loop from a fresh instance: all tokens accepted and a result, or
    a first refused token and what it raises, alone and there. *)
Lemma set_flags_cls_cases (toks : list str) :
  (forallb (accepted inherited) toks = true
   /\ exists o, set_flags inherited cls toks = Returns o
                /\ flags_raised cls o toks)
  \/ (exists pre tok rest e0,
        toks = pre ++ tok :: rest
        /\ forallb (accepted inherited) pre = true
        /\ set_flags inherited cls [tok] = Raises e0
        /\ set_flags inherited cls toks = Raises (raised_after pre e0)).
Proof.
  destruct (forallb (accepted inherited) toks) eqn:A.
  - left; split; [reflexivity|].
    destruct (set_flags_accepted toks cls settled_cls A) as [o [R [_ F]]].
    exists o; split; assumption.
  - right; destruct (first_refused _ _ A) as [pre [tok [rest [-> [Hp Hx]]]]].
    destruct (set_flags_first_refused pre rest tok Hp Hx) as [e0 [He0 Hr]].
    exists pre, tok, rest, e0; repeat split; auto.
Qed.

(** X1.  When [from_with_flags] returns, each of the seven flags of the
    result is set exactly when its name is among the trimmed tokens. *)
Theorem from_with_flags_sets_named (with_flags : str) (o : t) :
  from_with_flags inherited with_flags = Returns o ->
  identify_speakers o = mem (lit "identify_speakers") (tokens with_flags)
  /\ format o = mem (lit "format") (tokens with_flags)
  /\ insert_section_headings o
     = mem (lit "insert_section_headings") (tokens with_flags)
  /\ research_paras o = mem (lit "research_paras") (tokens with_flags)
  /\ add_summary_bullets o
     = mem (lit "add_summary_bullets") (tokens with_flags)
  /\ add_description o = mem (lit "add_description") (tokens with_flags)
  /\ insert_frame_captures o
     = mem (lit "insert_frame_captures") (tokens with_flags).
Proof.
  rewrite from_with_flags_loop; fold (tokens with_flags); intros H.
  destruct (set_flags_cls_cases (tokens with_flags))
    as [[_ [o' [R F]]] | [pre [tok [rest [e [_ [_ [_ R]]]]]]]];
    rewrite R in H; inversion H; subst.
  exact F.
Qed.

(** X2.  A flag string is taken exactly when each of its trimmed tokens
    is taken as a flag string of its own. *)
Theorem from_with_flags_tokenwise (with_flags : str) :
  (exists o, from_with_flags inherited with_flags = Returns o) <->
  (forall tok, In tok (tokens with_flags) ->
     exists o, from_with_flags inherited tok = Returns o).
Proof.
  rewrite from_with_flags_loop; fold (tokens with_flags).
  destruct (set_flags_cls_cases (tokens with_flags))
    as [[A [o' [R F]]] | [pre [tok [rest [e [E [Hp [He R]]]]]]]]; rewrite R.
  - split; [intros _ tok Hin | eauto].
    rewrite (from_with_flags_alone _ _ Hin); apply accepted_returns.
    rewrite forallb_forall in A; auto.
  - split; [intros [o H]; discriminate H|].
    intros H; destruct (H tok) as [o Ho].
    + rewrite E; apply in_or_app; right; left; reflexivity.
    + rewrite (from_with_flags_alone with_flags) in Ho
        by (rewrite E; apply in_or_app; right; left; reflexivity).
      rewrite He in Ho; discriminate Ho.
Qed.

(** X3.  A flag string is refused at its first token that is refused as
    a flag string of its own, the tokens before it being all taken.  It
    raises what that token raises alone (the [ValueError] naming it and
    the seven fields, or the interpreter's refusal to assign to an
    attribute of that name), with one exception: after a token
    [__dataclass_fields__] the [ValueError] cannot be built, and the
    [TypeError] of iterating a [bool] comes out instead. *)
Theorem from_with_flags_first_refused (with_flags : str) (e : exn) :
  (from_with_flags inherited with_flags = Raises e <->
   exists pre tok rest e0,
     tokens with_flags = pre ++ tok :: rest
     /\ (forall p, In p pre ->
           exists o, from_with_flags inherited p = Returns o)
     /\ from_with_flags inherited tok = Raises e0
     /\ e = raised_after pre e0)
  /\ (from_with_flags inherited with_flags = Raises e ->
      exists tok,
        In tok (tokens with_flags) /\ is_empty tok = false
        /\ (e = unknown_option cls tok
            \/ e = SetattrError tok
            \/ (e = TypeError (lit "'bool' object is not iterable")
                /\ In (lit "__dataclass_fields__") (tokens with_flags)))).
Proof.
  rewrite from_with_flags_loop; fold (tokens with_flags).
  assert (Hin : forall pre tok rest,
             tokens with_flags = pre ++ tok :: rest ->
             In tok (tokens with_flags) /\
             forall p, In p pre -> In p (tokens with_flags)).
  { intros pre tok rest E; rewrite E; split.
    - apply in_or_app; right; left; reflexivity.
    - intros p Hp; apply in_or_app; left; exact Hp. }
  destruct (set_flags_cls_cases (tokens with_flags))
    as [[A [o' [R F]]] | [pre [tok [rest [e0 [E [Hp [He R]]]]]]]]; rewrite R.
  - split; [split; [discriminate|] | discriminate].
    intros [pre [tok [rest [e0 [E [_ [He _]]]]]]].
    destruct (Hin _ _ _ E) as [Ht _].
    rewrite (from_with_flags_alone _ _ Ht) in He.
    rewrite forallb_forall in A; specialize (A _ Ht).
    apply accepted_returns in A; destruct A as [o Ho].
    rewrite Ho in He; discriminate He.
  - destruct (Hin _ _ _ E) as [Ht Hpre].
    split; [split|].
    + intros H; inversion H; subst e.
      exists pre, tok, rest, e0; repeat split; auto.
      * intros p Hp'.
        rewrite (from_with_flags_alone _ _ (Hpre p Hp')).
        apply accepted_returns.
        rewrite forallb_forall in Hp; auto.
      * rewrite (from_with_flags_alone _ _ Ht); exact He.
    + intros [pre' [tok' [rest' [e0' [E' [Hp' [He' ->]]]]]]].
      destruct (Hin _ _ _ E') as [Ht' Hpre'].
      rewrite (from_with_flags_alone _ _ Ht') in He'.
      assert (A' : forallb (accepted inherited) pre' = true).
      { apply forallb_forall; intros p Hpin; apply accepted_returns.
        rewrite <- (from_with_flags_alone _ _ (Hpre' p Hpin)); auto. }
      assert (X : accepted inherited tok' = false).
      { unfold accepted; rewrite He'; reflexivity. }
      destruct (set_flags_first_refused pre' rest' tok' A' X)
        as [e1 [He1 Q]].
      rewrite He' in He1; inversion He1; subst e1.
      rewrite <- E', R in Q; exact Q.
    + intros H; inversion H; subst e.
      exists tok; destruct (refused_how _ He) as [Ne [[-> _]|[-> _]]];
        (split; [exact Ht | split; [exact Ne|]]);
        [|right; left; reflexivity].
      unfold raised_after.
      rewrite (unknown_option_message cls tok eq_refl).
      destruct (mem (lit "__dataclass_fields__") pre) eqn:D.
      * right; right; split; [reflexivity|].
        apply Hpre, mem_In; exact D.
      * left; reflexivity.
Qed.

Lemma mem_same (name : str) (l l' : list str) :
  is_empty name = false ->
  (forall tok, is_empty tok = false -> (In tok l <-> In tok l')) ->
  mem name l = mem name l'.
Proof.
  intros N H; specialize (H name N).
  destruct (mem name l) eqn:E, (mem name l') eqn:E'; try reflexivity.
  - apply mem_In, H, mem_In in E; congruence.
  - apply mem_In, H, mem_In in E'; congruence.
Qed.

(** X4.  The order of the tokens and their repetition do not matter: two
    flag strings with the same non-empty trimmed tokens are taken alike,
    to configurations that are [==]. *)
Theorem from_with_flags_same_tokens (with_flags with_flags' : str) (o : t) :
  (forall tok, is_empty tok = false ->
     (In tok (tokens with_flags) <-> In tok (tokens with_flags'))) ->
  from_with_flags inherited with_flags = Returns o ->
  exists o',
    from_with_flags inherited with_flags' = Returns o'
    /\ __eq__ o o' = true.
Proof.
  intros Same; rewrite !from_with_flags_loop.
  fold (tokens with_flags) (tokens with_flags'); intros H.
  destruct (set_flags_cls_cases (tokens with_flags))
    as [[A [o1 [R F]]] | [pre [tok [rest [e [_ [_ [_ R]]]]]]]];
    rewrite R in H; inversion H; subst o1.
  assert (A' : forallb (accepted inherited) (tokens with_flags') = true).
  { rewrite forallb_forall in *; intros tok Hin.
    destruct (is_empty tok) eqn:E.
    - destruct tok; [reflexivity | discriminate E].
    - apply A, Same; assumption. }
  destruct (set_flags_accepted _ cls settled_cls A') as [o' [R' [_ F']]].
  exists o'; split; [exact R'|].
  destruct F as (f1 & f2 & f3 & f4 & f5 & f6 & f7).
  destruct F' as (g1 & g2 & g3 & g4 & g5 & g6 & g7).
  apply eq_fields_iff.
  rewrite f1, f2, f3, f4, f5, f6, f7, g1, g2, g3, g4, g5, g6, g7.
  cbn [identify_speakers format insert_section_headings research_paras
       add_summary_bullets add_description insert_frame_captures cls orb].
  repeat split; apply mem_same; auto.
Qed.

(** X5.  Two flag strings that are both taken are taken when written
    one after the other with a comma between.  The merge of their
    results, [from_with_flags(a).merge_with(from_with_flags(b))],
    returns a configuration that [==] the result for the whole, unless
    [merge_with] is itself a token of the first string: then the stored
    [True] hides the method and the call raises. *)
Theorem from_with_flags_concat (a b : str) (oa ob : t) :
  from_with_flags inherited a = Returns oa ->
  from_with_flags inherited b = Returns ob ->
  exists o,
    from_with_flags inherited (a ++ comma :: b) = Returns o
    /\ (if mem (lit "merge_with") (tokens a)
        then call_merge_with oa ob
             = Raises (TypeError (lit "'bool' object is not callable"))
        else exists m,
               call_merge_with oa ob = Returns m /\ __eq__ o m = true).
Proof.
  rewrite !from_with_flags_loop.
  fold (tokens a) (tokens b) (tokens (a ++ comma :: b)).
  rewrite tokens_app; intros Ha Hb.
  destruct (set_flags_cls_cases (tokens a))
    as [[Aa [o1 [Ra Fa]]] | [pre [tok [rest [e [_ [_ [_ R]]]]]]]];
    [rewrite Ra in Ha; inversion Ha; subst o1
    | rewrite R in Ha; discriminate Ha].
  destruct (set_flags_cls_cases (tokens b))
    as [[Ab [o1 [Rb Fb]]] | [pre [tok [rest [e [_ [_ [_ R]]]]]]]];
    [rewrite Rb in Hb; inversion Hb; subst o1
    | rewrite R in Hb; discriminate Hb].
  assert (A : forallb (accepted inherited) (tokens a ++ tokens b) = true)
    by (rewrite forallb_app, Aa, Ab; reflexivity).
  destruct (set_flags_accepted _ cls settled_cls A) as [o [R [_ F]]].
  exists o; split; [exact R|].
  assert (E : __eq__ o (merge_with oa ob) = true).
  { destruct F as (f1 & f2 & f3 & f4 & f5 & f6 & f7).
    destruct Fa as (a1 & a2 & a3 & a4 & a5 & a6 & a7).
    destruct Fb as (b1 & b2 & b3 & b4 & b5 & b6 & b7).
    apply eq_fields_iff; unfold merge_with.
    cbn [identify_speakers format insert_section_headings research_paras
         add_summary_bullets add_description insert_frame_captures].
    rewrite f1, f2, f3, f4, f5, f6, f7, a1, a2, a3, a4, a5, a6, a7,
      b1, b2, b3, b4, b5, b6, b7, !mem_app.
    repeat split. }
  pose proof (set_flags_stored (lit "merge_with") (tokens a) _ Ra
                eq_refl eq_refl) as K.
  cbn [instance_attrs cls List.map] in K.
  change (mem (lit "merge_with") []) with false in K; cbn [orb] in K.
  unfold call_merge_with; rewrite K.
  destruct (mem (lit "merge_with") (tokens a)); [reflexivity|].
  exists (merge_with oa ob); split; [reflexivity | exact E].
Qed.

(** X6.  Every configuration can be written as a flag string: the names
    of its set flags, joined by commas, are taken, and give back a fresh
    instance that [==] it. *)
Theorem from_with_flags_flag_string (o : t) :
  exists o',
    from_with_flags inherited (flag_string o) = Returns o'
    /\ __eq__ o' o = true
    /\ instance_attrs o' = [].
Proof.
  destruct o as [a b c d e f g x].
  exists (mk a b c d e f g []).
  destruct a, b, c, d, e, f, g; repeat split.
Qed.

End FlagStrings.

(** ** Merging, once more *)

(** X7.  Under [==], [merge_with] is the least upper bound of its
    operands in the order "every flag of the one is a flag of the
    other": merging a configuration with itself changes nothing, the
    merge absorbs each operand, whatever absorbs both absorbs the merge,
    and [deep()] absorbs everything. *)
Theorem merge_with_least_upper_bound (a b c : t) :
  __eq__ (merge_with a a) a = true
  /\ __eq__ (merge_with a (merge_with a b)) (merge_with a b) = true
  /\ __eq__ (merge_with b (merge_with a b)) (merge_with a b) = true
  /\ (__eq__ (merge_with a c) c = true ->
      __eq__ (merge_with b c) c = true ->
      __eq__ (merge_with (merge_with a b) c) c = true)
  /\ __eq__ (merge_with deep a) deep = true.
Proof.
  destruct a as [a1 a2 a3 a4 a5 a6 a7 ax], b as [b1 b2 b3 b4 b5 b6 b7 bx],
           c as [c1 c2 c3 c4 c5 c6 c7 cx].
  rewrite !eq_fields_iff; cbn.
  repeat split;
    try (match goal with
         | |- ?x || ?x = ?x => destruct x; reflexivity
         | |- ?x || (?x || ?y) = ?x || ?y => destruct x, y; reflexivity
         | |- ?y || (?x || ?y) = ?x || ?y => destruct x, y; reflexivity
         end).
  all: match goal with
       | H : _ /\ _ |- _ => idtac
       end.
  all: repeat match goal with
              | H : _ /\ _ |- _ => destruct H
              end.
  all: match goal with
       | |- ?x || ?y || ?z = ?z => destruct x, y, z; simpl in *; congruence
       end.
Qed.


(** ** The orchestrator, once more *)

Lemma enabled_merge_l (a b : t) (act : Kash.action) :
  enabled a act = true -> enabled (merge_with a b) act = true.
Proof.
  destruct act; cbn; try reflexivity;
    rewrite ?andb_true_iff, ?orb_true_iff; tauto.
Qed.

Lemma enabled_merge_r (a b : t) (act : Kash.action) :
  enabled b act = true -> enabled (merge_with a b) act = true.
Proof.
  destruct act; cbn; try reflexivity;
    rewrite ?andb_true_iff, ?orb_true_iff; tauto.
Qed.

Lemma enabled_merge_inv (a b : t) (act : Kash.action) :
  enabled (merge_with a b) act = true ->
  enabled a act = true \/ enabled b act = true
  \/ act = Kash.identify_speakers.
Proof.
  destruct act; cbn; auto; rewrite ?orb_true_iff; tauto.
Qed.

Lemma selected_length (o : t) (language : str) :
  List.length (filter (enabled o) (fixed_order language)) =
  1 + (if format o then 3 + Nat.b2n (identify_speakers o) else 0)
  + Nat.b2n (insert_section_headings o) + Nat.b2n (research_paras o)
  + Nat.b2n (add_summary_bullets o) + Nat.b2n (add_description o)
  + Nat.b2n (insert_frame_captures o).
Proof.
  destruct o as [a b c d e f g x].
  destruct a, b, c, d, e, f, g; reflexivity.
Qed.

Section OrchestratorMore.

Variables Item World Failure : Type.
Variable perform : Kash.action -> Item -> World -> (Failure + Item) * World.

Local Abbreviation call := (Pipeline.call Item Failure).
Local Abbreviation state := (Pipeline.state Item World Failure).
Local Abbreviation transcribe_with_options :=
  (Pipeline.transcribe_with_options perform).

(** The callees of a run are a beginning of the steps the flags select,
    and all of them when the run returns. *)
Lemma run_callees item options language w :
  let out := transcribe_with_options item options language (start w) in
  let invoked := List.map (@callee _ _) (calls (snd out)) in
  let selected := filter (enabled options) (fixed_order language) in
  (exists rest, selected = invoked ++ rest)
  /\ (forall res, fst out = inr res -> invoked = selected)
  /\ invoked <> [].
Proof.
  cbv zeta.
  destruct (transcribe_with_options_run perform item options language w)
    as [Hch [Hpre Hall]].
  rewrite spec_steps_fixed_order in Hpre, Hall.
  repeat split; auto.
  intros E; apply map_eq_nil in E.
  destruct (transcribe_with_options item options language (start w))
    as [r st'].
  cbn [fst snd] in *; rewrite E in Hch, Hall.
  inversion Hch; subst.
  specialize (Hall _ eq_refl); cbn in Hall; discriminate Hall.
Qed.

(** X9.  A run makes at least one call and at most ten.  A run that
    returns has made one call for the transcription, four or three for
    the formatting pipeline when [format] is set (with or without
    speaker identification), and one for each of the five annotation
    flags that is set.  The calls counted are calls really made: each is
    the collaborator applied to what the call before it returned, in the
    world that call left. *)
Theorem call_count item options language w :
  let out := transcribe_with_options item options language (start w) in
  1 <= List.length (calls (snd out)) <= 10
  /\ (forall res, fst out = inr res ->
        List.length (calls (snd out)) =
        1 + (if format options
             then 3 + Nat.b2n (identify_speakers options) else 0)
        + Nat.b2n (insert_section_headings options)
        + Nat.b2n (research_paras options)
        + Nat.b2n (add_summary_bullets options)
        + Nat.b2n (add_description options)
        + Nat.b2n (insert_frame_captures options))
  /\ Pipeline.chain perform item w (calls (snd out)) (fst out)
       (world (snd out)).
Proof.
  intros out.
  destruct (run_callees item options language w) as [[rest Hpre] [Hall Hne]].
  fold out in Hpre, Hall, Hne.
  pose proof (selected_length options language) as L.
  split; [split|split;
    [|exact (proj1 (transcribe_with_options_run perform item options
                      language w))]].
  - destruct (calls (snd out)); [exfalso; apply Hne; reflexivity | simpl; lia].
  - rewrite Hpre, length_app, length_map in L.
    destruct (format options), (identify_speakers options),
      (insert_section_headings options), (research_paras options),
      (add_summary_bullets options), (add_description options),
      (insert_frame_captures options); simpl in L; lia.
  - intros res Hres; rewrite <- L, <- (Hall res Hres), length_map; reflexivity.
Qed.

(** X10.  The run reads the configuration through its fields only, and
    reads [identify_speakers] only under [format]: configurations that
    are [==] run alike from every state, and without [format] the value
    of [identify_speakers] changes nothing. *)
Theorem run_reads_flags_only item language (st : state) :
  (forall a b, __eq__ a b = true ->
     transcribe_with_options item a language st
     = transcribe_with_options item b language st)
  /\ (forall i i' h r s d f x x',
        transcribe_with_options item (mk i false h r s d f x) language st
        = transcribe_with_options item (mk i' false h r s d f x') language st).
Proof.
  split.
  - intros a b E; apply eq_fields_iff in E.
    destruct a as [a1 a2 a3 a4 a5 a6 a7 ax], b as [b1 b2 b3 b4 b5 b6 b7 bx].
    cbn in E; destruct E as (-> & -> & -> & -> & -> & -> & ->).
    reflexivity.
  - intros; rewrite !transcribe_with_options_steps; reflexivity.
Qed.


(** X12.  Merging adds calls and removes none: a returning run under the
    merge of two configurations calls every step a returning run under
    either operand calls, and nothing else but, possibly, speaker
    identification (when one operand brings [identify_speakers] and the
    other [format]). *)
Theorem merged_run_calls item language a b wa wb wm ra rb rm :
  let invoked o w :=
    List.map (@callee _ _)
      (calls (snd (transcribe_with_options item o language (start w)))) in
  fst (transcribe_with_options item a language (start wa)) = inr ra ->
  fst (transcribe_with_options item b language (start wb)) = inr rb ->
  fst (transcribe_with_options item (merge_with a b) language (start wm))
  = inr rm ->
  (forall act, In act (invoked a wa) -> In act (invoked (merge_with a b) wm))
  /\ (forall act, In act (invoked b wb) -> In act (invoked (merge_with a b) wm))
  /\ (forall act, In act (invoked (merge_with a b) wm) ->
        In act (invoked a wa) \/ In act (invoked b wb)
        \/ act = Kash.identify_speakers).
Proof.
  intros invoked Ha Hb Hm.
  destruct (run_callees item a language wa) as [_ [Ea _]].
  destruct (run_callees item b language wb) as [_ [Eb _]].
  destruct (run_callees item (merge_with a b) language wm) as [_ [Em _]].
  specialize (Ea _ Ha); specialize (Eb _ Hb); specialize (Em _ Hm).
  unfold invoked; rewrite Ea, Eb, Em.
  repeat split; intros act; rewrite !filter_In.
  - intros [Hin He]; split; [exact Hin | apply enabled_merge_l; exact He].
  - intros [Hin He]; split; [exact Hin | apply enabled_merge_r; exact He].
  - intros [Hin He]; destruct (enabled_merge_inv _ _ _ He) as [H|[H|H]]; auto.
Qed.

End OrchestratorMore.

(** ** The four commands *)

Section CommandRuns.

Variables Item World Failure : Type.
Variable perform : Kash.action -> Item -> World -> (Failure + Item) * World.

(** X13.  What the four commands call.  [transcribe_basic] calls the
    transcription and nothing else, in every run.  A returning run of
    [transcribe_formatted] has called the transcription and the four
    formatting steps, one of [transcribe_annotated] these and the
    annotation steps without paragraph research, and one of
    [transcribe_deep] all ten; and no run of [transcribe_annotated]
    calls paragraph research.  The calls spoken of are calls really
    made: in each of the four, every one is the collaborator applied to
    what the call before it returned, in the world that call left. *)
Theorem commands_calls (item : Item) (language : str) (w : World) :
  let invoked (command : Pipeline.run Item World Failure Item) :=
    List.map (@callee _ _) (calls (snd (command (start w)))) in
  let returns (command : Pipeline.run Item World Failure Item) :=
    exists res, fst (command (start w)) = inr res in
  let really_made (command : Pipeline.run Item World Failure Item) :=
    Pipeline.chain perform item w (calls (snd (command (start w))))
      (fst (command (start w))) (world (snd (command (start w)))) in
  invoked (Commands.transcribe_basic perform item language)
  = [Kash.transcribe language]
  /\ (returns (Commands.transcribe_formatted perform item language) ->
      invoked (Commands.transcribe_formatted perform item language)
      = [ Kash.transcribe language; Kash.identify_speakers; Kash.strip_html;
          Kash.break_into_paragraphs; Kash.backfill_timestamps ])
  /\ (returns (Commands.transcribe_annotated perform item language) ->
      invoked (Commands.transcribe_annotated perform item language)
      = [ Kash.transcribe language; Kash.identify_speakers; Kash.strip_html;
          Kash.break_into_paragraphs; Kash.backfill_timestamps;
          Kash.insert_section_headings; Kash.add_summary_bullets;
          Kash.add_description; Kash.insert_frame_captures ])
  /\ (returns (Commands.transcribe_deep perform item language) ->
      invoked (Commands.transcribe_deep perform item language)
      = fixed_order language)
  /\ ~ In Kash.research_paras
         (invoked (Commands.transcribe_annotated perform item language))
  /\ really_made (Commands.transcribe_basic perform item language)
  /\ really_made (Commands.transcribe_formatted perform item language)
  /\ really_made (Commands.transcribe_annotated perform item language)
  /\ really_made (Commands.transcribe_deep perform item language).
Proof.
  intros invoked returns really_made; unfold invoked, returns, really_made.
  unfold Commands.transcribe_basic, Commands.transcribe_formatted,
    Commands.transcribe_annotated, Commands.transcribe_deep.
  split; [|split; [|split; [|split; [|split;
    [|repeat split; apply transcribe_with_options_run]]]]].
  - destruct (run_callees perform item basic language w) as [[rest Hpre] [_ Hne]].
    cbn in Hpre.
    destruct (List.map _ _) as [|c [|c' cs]]; [congruence | | discriminate Hpre].
    inversion Hpre; reflexivity.
  - intros [res H].
    destruct (run_callees perform item formatted language w) as [_ [Hall _]].
    exact (Hall res H).
  - intros [res H].
    destruct (run_callees perform item annotated language w) as [_ [Hall _]].
    exact (Hall res H).
  - intros [res H].
    destruct (run_callees perform item deep language w) as [_ [Hall _]].
    exact (Hall res H).
  - intros Hin.
    destruct (run_callees perform item annotated language w) as [[rest Hpre] _].
    assert (In Kash.research_paras
              (filter (enabled annotated) (fixed_order language))).
    { rewrite Hpre; apply in_or_app; left; exact Hin. }
    cbn in H; intuition discriminate.
Qed.

End CommandRuns.

(** ** Rendering *)

Section RenderingRuns.

Variables Item World Failure Path : Type.
Variable store_path : Item -> option str.
Variable under : Path -> str -> Path.
Variable tabbed_webpage_config :
  list Item -> World -> (Failure + list Item) * World.
Variable tabbed_webpage_generate :
  list Item -> World -> (Failure + list Item) * World.
Variable minify_html : Item -> World -> (Failure + Item) * World.

Local Abbreviation format_results :=
  (Results.format_results store_path under tabbed_webpage_config
     tabbed_webpage_generate minify_html).

Ltac render result_item w no_minify :=
  cbv [Results.format_results Results.bind Results.lift Results.ret
       Results.raise Results.first_item Results.assert Results.path
       Results.start Results.world Results.calls];
  let Hc := fresh "Hc" in
  let Hg := fresh "Hg" in
  let Hm := fresh "Hm" in
  destruct (tabbed_webpage_config [result_item] w)
    as [[?e|?config] ?w1] eqn:Hc; cbn;
  [| match goal with
     | |- context [tabbed_webpage_generate ?c ?w1] =>
         destruct (tabbed_webpage_generate c w1)
           as [[?e|[|?page ?more]] ?w2] eqn:Hg; cbn;
         [ | destruct no_minify; cbn
           | destruct no_minify; cbn;
             [ | match goal with
                 | |- context [minify_html ?p ?w2] =>
                     destruct (minify_html p w2)
                       as [[?e|?minified] ?w3] eqn:Hm; cbn
                 end ] ]
     end ].

Ltac paths :=
  repeat match goal with
         | |- context [store_path ?i] =>
             let P := fresh "P" in
             destruct (store_path i) as [[|? ?]|] eqn:P; cbn
         end.

(** X14.  When [format_results] returns, the markdown path is the
    [store_path] of the item it was given, under the base directory, and
    the HTML path is the [store_path] of the minified first page, or of
    the first page itself under [no_minify]; both paths are non-empty,
    and the collaborators were called once each, in order. *)
Theorem format_results_paths result_item base_dir no_minify w md html st :
  format_results result_item base_dir no_minify (Results.start w)
  = (inr (md, html), st) ->
  exists p q config page more last w1 w2,
    store_path result_item = Some p /\ p <> [] /\ md = under base_dir p
    /\ store_path last = Some q /\ q <> [] /\ html = under base_dir q
    /\ tabbed_webpage_config [result_item] w = (inr config, w1)
    /\ tabbed_webpage_generate config w1 = (inr (page :: more), w2)
    /\ (if no_minify
        then last = page
             /\ st = Results.mkstate w2
                       [ Results.config_call [result_item];
                         Results.generate_call config ]
        else minify_html page w2 = (inr last, Results.world st)
             /\ Results.calls st
                = [ Results.config_call [result_item];
                    Results.generate_call config;
                    Results.minify_call page ]).
Proof.
  render result_item w no_minify; try discriminate; paths;
    try discriminate; intros H; inversion H; subst; cbn.
  - do 8 eexists; repeat split; try eassumption; try reflexivity; discriminate.
  - do 8 eexists; repeat split; try eassumption; try reflexivity; discriminate.
Qed.



Lemma format_results_no_type_error result_item base_dir no_minify w :
  fst (format_results result_item base_dir no_minify (Results.start w))
  <> inl Results.TypeError.
Proof.
  render result_item w no_minify; paths; discriminate.
Qed.

Lemma format_results_index_error result_item base_dir no_minify w :
  fst (format_results result_item base_dir no_minify (Results.start w))
  = inl Results.IndexError <->
  exists config w1 w2,
    tabbed_webpage_config [result_item] w = (inr config, w1)
    /\ tabbed_webpage_generate config w1 = (inr [], w2).
Proof.
  render result_item w no_minify; paths;
    (split;
     [ first [ discriminate
             | intros _; do 3 eexists; split; [reflexivity | eassumption] ]
     | intros (? & ? & ? & H1 & H2) ]).
  all: try congruence.
  all: try reflexivity.
  all: inversion H1; subst; congruence.
Qed.

Lemma format_results_raised result_item base_dir no_minify w e :
  fst (format_results result_item base_dir no_minify (Results.start w))
  = inl (Results.Raised e) <->
  (exists w1, tabbed_webpage_config [result_item] w = (inl e, w1))
  \/ (exists config w1 w2,
        tabbed_webpage_config [result_item] w = (inr config, w1)
        /\ tabbed_webpage_generate config w1 = (inl e, w2))
  \/ (no_minify = false
      /\ exists config page more w1 w2 w3,
           tabbed_webpage_config [result_item] w = (inr config, w1)
           /\ tabbed_webpage_generate config w1 = (inr (page :: more), w2)
           /\ minify_html page w2 = (inl e, w3)).
Proof.
  revert e; render result_item w no_minify; paths; intros e0; split.
  all: try (intros H; discriminate H).
  all: try (intros [[? H]
                   |[(? & ? & ? & H1 & H2)
                    |[N (? & ? & ? & ? & ? & ? & H1 & H2 & H3)]]];
            try discriminate; try congruence;
            try (inversion H1; subst; congruence);
            try (inversion H1; subst; rewrite H2 in *;
                 match goal with
                 | Hg : (_, _) = (_, _) |- _ => inversion Hg; subst
                 end; congruence)).
  all: intros H; inversion H; subst;
    first [ left; eexists; reflexivity
          | right; left; do 3 eexists; split; [reflexivity | eassumption]
          | right; right; split; [reflexivity|];
            do 6 eexists; split; [reflexivity | split; eassumption] ].
Qed.

(** X17.  How [format_results] fails.  It never passes [None] to
    [Path]; it raises [IndexError] exactly when the generator returns
    no page; and an exception of a collaborator comes out as it is,
    from the first of the three calls that raises. *)
Theorem format_results_failures result_item base_dir no_minify w :
  let out := format_results result_item base_dir no_minify (Results.start w) in
  fst out <> inl Results.TypeError
  /\ (fst out = inl Results.IndexError <->
      exists config w1 w2,
        tabbed_webpage_config [result_item] w = (inr config, w1)
        /\ tabbed_webpage_generate config w1 = (inr [], w2))
  /\ (forall e,
        fst out = inl (Results.Raised e) <->
        (exists w1, tabbed_webpage_config [result_item] w = (inl e, w1))
        \/ (exists config w1 w2,
              tabbed_webpage_config [result_item] w = (inr config, w1)
              /\ tabbed_webpage_generate config w1 = (inl e, w2))
        \/ (no_minify = false
            /\ exists config page more w1 w2 w3,
                 tabbed_webpage_config [result_item] w = (inr config, w1)
                 /\ tabbed_webpage_generate config w1
                    = (inr (page :: more), w2)
                 /\ minify_html page w2 = (inl e, w3))).
Proof.
  cbv zeta; split; [apply format_results_no_type_error|].
  split; [apply format_results_index_error|].
  intros e; apply format_results_raised.
Qed.

End RenderingRuns.

(** ** The self-test *)

(** X18.  The self-test of [transcribe_options.py] runs to its last
    line: no call raises and no assertion fails, whatever attributes the
    interpreter puts on the instances. *)
Theorem self_test_passes (inherited : inherited_attrs) :
  test_transcribe_options_parsing inherited = Passed.
Proof. reflexivity. Qed.

(** ** Concrete runs, once more *)

Lemma from_with_flags_sets_named_run :
  let o := mk false true false false false false false [(lit "deep", true)] in
  from_with_flags some_inherited (lit "format , deep,format") = Returns o
  /\ format o = mem (lit "format") (tokens (lit "format , deep,format"))
  /\ research_paras o
     = mem (lit "research_paras") (tokens (lit "format , deep,format")).
Proof.
  intros o; split; [reflexivity|].
  destruct (@from_with_flags_sets_named some_inherited
              (lit "format , deep,format") o eq_refl)
    as (_ & H2 & _ & H4 & _).
  split; assumption.
Defined.

Lemma from_with_flags_tokenwise_run :
  (forall tok, In tok (tokens (lit "format, ,add_description")) ->
     exists o, from_with_flags some_inherited tok = Returns o)
  /\ exists o,
       from_with_flags some_inherited (lit "format, ,add_description")
       = Returns o.
Proof.
  assert (H : forall tok, In tok (tokens (lit "format, ,add_description")) ->
                exists o, from_with_flags some_inherited tok = Returns o).
  { intros tok [<-|[<-|[<-|[]]]]; eexists; reflexivity. }
  split; [exact H|].
  apply (proj2 (@from_with_flags_tokenwise some_inherited
                  (lit "format, ,add_description"))).
  exact H.
Defined.

Lemma from_with_flags_first_refused_run :
  from_with_flags some_inherited (lit "format, nope ,__class__")
  = Raises (unknown_option cls (lit "nope"))
  /\ from_with_flags some_inherited (lit "__dataclass_fields__,nope")
     = Raises (TypeError (lit "'bool' object is not iterable"))
  /\ exists pre tok rest e0,
       tokens (lit "__dataclass_fields__,nope") = pre ++ tok :: rest
       /\ (forall p, In p pre ->
             exists o, from_with_flags some_inherited p = Returns o)
       /\ from_with_flags some_inherited tok = Raises e0
       /\ TypeError (lit "'bool' object is not iterable")
          = raised_after pre e0.
Proof.
  split; [reflexivity | split; [reflexivity|]].
  apply (proj1 (proj1 (@from_with_flags_first_refused some_inherited
                         (lit "__dataclass_fields__,nope")
                         (TypeError (lit "'bool' object is not iterable"))))).
  reflexivity.
Defined.

Lemma from_with_flags_same_tokens_run :
  let s := lit "format,identify_speakers,format" in
  let s' := lit " identify_speakers,,format" in
  (forall tok, is_empty tok = false ->
     (In tok (tokens s) <-> In tok (tokens s')))
  /\ from_with_flags some_inherited s = Returns formatted
  /\ exists o',
       from_with_flags some_inherited s' = Returns o'
       /\ __eq__ formatted o' = true.
Proof.
  intros s s'.
  assert (Same : forall tok, is_empty tok = false ->
                   (In tok (tokens s) <-> In tok (tokens s'))).
  { intros tok E; split.
    - intros [<-|[<-|[<-|[]]]]; cbn; auto.
    - intros [<-|[<-|[<-|[]]]]; cbn; auto; discriminate E. }
  split; [exact Same | split; [reflexivity|]].
  apply (@from_with_flags_same_tokens some_inherited s s' formatted Same).
  reflexivity.
Defined.

Lemma from_with_flags_concat_run :
  from_with_flags some_inherited (lit "format")
  = Returns (mk false true false false false false false [])
  /\ from_with_flags some_inherited (lit "research_paras, format")
     = Returns (mk false true false true false false false [])
  /\ from_with_flags some_inherited (lit "merge_with")
     = Returns (mk false false false false false false false
                  [(lit "merge_with", true)])
  /\ (exists o,
        from_with_flags some_inherited
          (lit "format" ++ comma :: lit "research_paras, format") = Returns o
        /\ exists m,
             call_merge_with (mk false true false false false false false [])
               (mk false true false true false false false []) = Returns m
             /\ __eq__ o m = true)
  /\ (exists o,
        from_with_flags some_inherited
          (lit "merge_with" ++ comma :: lit "format") = Returns o
        /\ call_merge_with
             (mk false false false false false false false
                [(lit "merge_with", true)])
             (mk false true false false false false false [])
           = Raises (TypeError (lit "'bool' object is not callable"))).
Proof.
  split; [reflexivity | split; [reflexivity | split; [reflexivity|]]].
  split.
  - exact (@from_with_flags_concat some_inherited (lit "format")
             (lit "research_paras, format") _ _ eq_refl eq_refl).
  - exact (@from_with_flags_concat some_inherited (lit "merge_with")
             (lit "format") _ _ eq_refl eq_refl).
Defined.

Lemma merge_with_least_upper_bound_run :
  __eq__ (merge_with formatted deep) deep = true
  /\ __eq__ (merge_with annotated deep) deep = true
  /\ __eq__ (merge_with (merge_with formatted annotated) deep) deep = true.
Proof.
  split; [reflexivity | split; [reflexivity|]].
  apply (proj1 (proj2 (proj2 (proj2
           (merge_with_least_upper_bound formatted annotated deep)))));
    reflexivity.
Defined.


Lemma call_count_run :
  let out := Pipeline.transcribe_with_options (stub never) []
               annotated (lit "en") (start 0) in
  fst out
  = inr [ Kash.transcribe (lit "en"); Kash.identify_speakers; Kash.strip_html;
          Kash.break_into_paragraphs; Kash.backfill_timestamps;
          Kash.insert_section_headings; Kash.add_summary_bullets;
          Kash.add_description; Kash.insert_frame_captures ]
  /\ List.length (calls (snd out)) = 9.
Proof.
  intros out; split; [reflexivity|].
  exact (proj1 (proj2 (call_count (stub never) [] annotated (lit "en") 0))
           _ eq_refl).
Defined.

Lemma run_reads_flags_only_run :
  let a := mk false true false false false false false [(lit "deep", true)] in
  let b := mk false true false false false false false [] in
  __eq__ a b = true
  /\ Pipeline.transcribe_with_options (stub research_fails) [] a (lit "en")
       (start 0)
     = Pipeline.transcribe_with_options (stub research_fails) [] b (lit "en")
         (start 0).
Proof.
  intros a b; split; [reflexivity|].
  apply (proj1 (run_reads_flags_only (stub research_fails) [] (lit "en")
                  (start 0)) a b).
  reflexivity.
Defined.


Lemma merged_run_calls_run :
  let speakers := mk true false false false false false false [] in
  let formatting := mk false true false false false false false [] in
  let invoked o :=
    List.map (@callee _ _)
      (calls (snd (Pipeline.transcribe_with_options (stub never) []
                     o (lit "en") (start 0)))) in
  ~ In Kash.identify_speakers (invoked speakers)
  /\ ~ In Kash.identify_speakers (invoked formatting)
  /\ In Kash.identify_speakers (invoked (merge_with speakers formatting))
  /\ (forall act, In act (invoked formatting) ->
        In act (invoked (merge_with speakers formatting))).
Proof.
  intros speakers formatting invoked.
  split; [cbn; intuition discriminate|].
  split; [cbn; intuition discriminate|].
  split; [cbn; auto|].
  exact (proj1 (proj2 (@merged_run_calls _ _ _ (stub never) [] (lit "en")
                         speakers formatting 0 0 0 _ _ _
                         eq_refl eq_refl eq_refl))).
Defined.

Lemma commands_calls_run :
  (exists res,
      fst (Commands.transcribe_formatted (stub never) [] (lit "en") (start 0))
      = inr res)
  /\ List.map (@callee _ _)
       (calls (snd (Commands.transcribe_formatted (stub never) [] (lit "en")
                      (start 0))))
     = [ Kash.transcribe (lit "en"); Kash.identify_speakers; Kash.strip_html;
         Kash.break_into_paragraphs; Kash.backfill_timestamps ].
Proof.
  assert (H : exists res,
             fst (Commands.transcribe_formatted (stub never) [] (lit "en")
                    (start 0)) = inr res)
    by (eexists; reflexivity).
  split; [exact H|].
  exact (proj1 (proj2 (commands_calls (stub never) [] (lit "en") 0)) H).
Defined.

Lemma format_results_paths_run :
  let run no_minify :=
    Results.format_results (fun item : option str => item)
      (fun base p => base ++ p) page_config page_generate page_minify
      (Some (lit "talk.md")) (lit "ws/") no_minify (Results.start 0) in
  fst (run false) = inr (lit "ws/talk.md", lit "ws/page.html.min")
  /\ fst (run true) = inr (lit "ws/talk.md", lit "ws/page.html")
  /\ exists p q config page more last w1 w2,
       Some (lit "talk.md") = Some p /\ p <> []
       /\ lit "ws/talk.md" = lit "ws/" ++ p
       /\ last = Some q /\ q <> [] /\ lit "ws/page.html.min" = lit "ws/" ++ q
       /\ page_config [Some (lit "talk.md")] 0 = (inr config, w1)
       /\ page_generate config w1 = (inr (page :: more), w2)
       /\ page_minify page w2 = (inr last, Results.world (snd (run false)))
       /\ Results.calls (snd (run false))
          = [ Results.config_call [Some (lit "talk.md")];
              Results.generate_call config; Results.minify_call page ].
Proof.
  intros run; split; [reflexivity | split; [reflexivity|]].
  exact (@format_results_paths _ _ unit _ (fun item : option str => item)
           (fun base p => base ++ p) page_config page_generate page_minify
           (Some (lit "talk.md")) (lit "ws/") false 0
           (lit "ws/talk.md") (lit "ws/page.html.min") (snd (run false))
           eq_refl).
Defined.



Lemma format_results_failures_run :
  let out :=
    Results.format_results (fun item : option str => item)
      (fun base p => base ++ p) page_config
      (fun _ w => (inr [], S w)) page_minify
      (Some (lit "talk.md")) (lit "ws/") false (Results.start 0) in
  (exists config w1 w2,
      page_config [Some (lit "talk.md")] 0 = (inr config, w1)
      /\ (inr (@nil (option str)) : unit + list (option str), S w1)
         = (inr [], w2))
  /\ fst out = inl Results.IndexError.
Proof.
  intros out.
  assert (H : exists config w1 w2,
             page_config [Some (lit "talk.md")] 0 = (inr config, w1)
             /\ (inr (@nil (option str)) : unit + list (option str), S w1)
                = (inr [], w2))
    by (do 3 eexists; split; reflexivity).
  split; [exact H|].
  exact (proj2 (proj1 (proj2
           (@format_results_failures _ _ unit _ (fun item : option str => item)
              (fun base p => base ++ p) page_config
              (fun _ w => (inr [], S w)) page_minify
              (Some (lit "talk.md")) (lit "ws/") false 0))) H).
Defined.
